(** * parse-threat-report: the Trengo webhook handler of [src/app.ts]

    A shallow embedding of the handler and of the parts of the JavaScript
    run time it calls ([String.prototype.replace], [JSON.parse] with a
    reviver, [decodeURIComponent], [String.prototype.match] with a global
    regular expression, [JSON.stringify], template literals), followed by
    the properties the specification states about it.

    JavaScript strings are sequences of UTF-16 code units and are modelled
    as [list N].  What the language leaves to the engine (the text of error
    messages, the Unicode upper-case table, the printing of numbers) and what
    the process reads from its environment (the two configuration values,
    the behaviour of the network) are variables of the section. *)

From Stdlib Require Import List NArith Arith Bool Lia Ascii String DecimalString.
Import ListNotations.

Set Warnings "-register-all".
Local Open Scope N_scope.
Local Open Scope list_scope.

(** ** Strings of UTF-16 code units *)

Abbreviation code_unit := N (only parsing).
Abbreviation jsstring := (list N) (only parsing).

(** An ASCII literal as a JavaScript string. *)
Definition js (s : string) : jsstring :=
  List.map N_of_ascii (list_ascii_of_string s).

Definition DQUOTE : code_unit := 34.
Definition BACKSLASH : code_unit := 92.
Definition PERCENT : code_unit := 37.
Definition AMPERSAND : code_unit := 38.
Definition EQUALS : code_unit := 61.

(** A literal in which a backquote stands for a double quote. *)
Definition jsq (s : string) : jsstring :=
  List.map (fun c => if c =? 96 then DQUOTE else c) (js s).

Fixpoint jseqb (a b : jsstring) : bool :=
  match a, b with
  | [], [] => true
  | x :: a', y :: b' => (x =? y) && jseqb a' b'
  | _, _ => false
  end.

Definition is_empty (s : jsstring) : bool :=
  match s with [] => true | _ => false end.

(** [s.replace(/c/g, by)] for a one-character pattern and a replacement
    without [$]. *)
Definition replace_all (c : code_unit) (by_ : jsstring) (s : jsstring) : jsstring :=
  flat_map (fun x => if x =? c then by_ else [x]) s.

Fixpoint join {A} (sep : list A) (l : list (list A)) : list A :=
  match l with
  | [] => []
  | [x] => x
  | x :: rest => x ++ sep ++ join sep rest
  end.

Fixpoint take_while (p : code_unit -> bool) (s : jsstring) : jsstring :=
  match s with
  | [] => []
  | c :: rest => if p c then c :: take_while p rest else []
  end.

(** ASCII case conversion. *)
Definition ascii_upper (c : code_unit) : code_unit :=
  if (97 <=? c) && (c <=? 122) then c - 32 else c.

Definition hex_digit (d : N) : code_unit :=
  if d <? 10 then 48 + d else 87 + d.

Definition hex_value (c : code_unit) : option N :=
  if (48 <=? c) && (c <=? 57) then Some (c - 48)
  else if (65 <=? c) && (c <=? 70) then Some (c - 55)
  else if (97 <=? c) && (c <=? 102) then Some (c - 87)
  else None.

Definition decimal (n : N) : jsstring :=
  js (NilZero.string_of_uint (N.to_uint n)).

(** ** Values, errors and results *)

(** The values [JSON.parse] builds.  A number keeps its source text: its
    numeric value is needed only to print it again. *)
Inductive value : Type :=
| JNull
| JBool (b : bool)
| JNum (lexeme : jsstring)
| JStr (s : jsstring)
| JArr (elems : list value)
| JObj (members : list (jsstring * value)).

(** Where the run time raises a [TypeError] in this program. *)
Inductive type_error_site : Type :=
| NotAFunction          (* [message.match] is not callable *)
| PropertyOfNullish     (* property read on [undefined] or [null] *)
| ToPrimitiveFailed.    (* an object that cannot be converted to a string *)

Inductive js_error : Type :=
| SyntaxError (text : jsstring)     (* [JSON.parse] on [text] *)
| URIError
| TypeError (site : type_error_site).

(** What a [throw] or a rejected promise carries. *)
Inductive exn : Type :=
| ErrorObject (e : js_error)
| Rejection (instance_of_Error : bool) (message : jsstring).

Inductive Result (A : Type) : Type :=
| Ok (a : A)
| Throw (e : exn).
Arguments Ok {A} a.
Arguments Throw {A} e.

Definition rbind {A B} (r : Result A) (f : A -> Result B) : Result B :=
  match r with
  | Ok a => f a
  | Throw e => Throw e
  end.

Declare Scope result_scope.
Delimit Scope result_scope with result.
Notation "x <- r ;; k" := (rbind r (fun x => k))
  (at level 61, r at next level, right associativity) : result_scope.

(** The results of a list of steps done in order: the first exception
    ends them. *)
Fixpoint sequence {A} (l : list (Result A)) : Result (list A) :=
  match l with
  | [] => Ok []
  | r :: rest => (a <- r ;; more <- sequence rest ;; Ok (a :: more))%result
  end.

Fixpoint map_indexed {A B} (f : N -> A -> B) (i : N) (l : list A) : list B :=
  match l with
  | [] => []
  | x :: rest => f i x :: map_indexed f (i + 1) rest
  end.

(** ** Regular expressions *)

(** The fragment of the pattern language that the handler's expression
    uses. *)
Inductive regex : Type :=
| REmpty
| RStart                      (* [^] *)
| RChar (c : code_unit)       (* a pattern character *)
| RNonSpace                   (* [\S] *)
| RSeq (r1 r2 : regex)
| RAlt (r1 r2 : regex)
| RGroup (r : regex)          (* [( )] *)
| RStar (r : regex).          (* greedy [*] *)

Record RegExp : Type := {
  source : regex;
  flag_global : bool;
  flag_ignoreCase : bool;
  lastIndex : nat
}.

(** [WhiteSpace] and [LineTerminator] code points: the class [\s]. *)
Definition is_white_space (c : code_unit) : bool :=
  ((9 <=? c) && (c <=? 13)) || (c =? 32) || (c =? 160) || (c =? 5760)
  || ((8192 <=? c) && (c <=? 8202)) || (c =? 8232) || (c =? 8233)
  || (c =? 8239) || (c =? 8287) || (c =? 12288) || (c =? 65279).

Fixpoint literal (s : jsstring) : regex :=
  match s with
  | [] => REmpty
  | [c] => RChar c
  | c :: rest => RSeq (RChar c) (literal rest)
  end.

(** [/^(https:|http:|www\.)\S*/] *)
Definition url_pattern : regex :=
  RSeq RStart
    (RSeq (RGroup (RAlt (literal (js "https:"))
                  (RAlt (literal (js "http:")) (literal (js "www.")))))
          (RStar RNonSpace)).

(** The regular expression literal of [parseCustomTicketFields], flags
    [gi]; [new RegExp(expression)] copies pattern and flags into a fresh
    object whose [lastIndex] is 0. *)
Definition expression : RegExp :=
  {| source := url_pattern; flag_global := true; flag_ignoreCase := true;
     lastIndex := 0 |}.

Definition new_RegExp (e : RegExp) : RegExp :=
  {| source := source e; flag_global := flag_global e;
     flag_ignoreCase := flag_ignoreCase e; lastIndex := 0 |}.

(** ** JSON.stringify *)

Definition is_high_surrogate (c : code_unit) : bool := (55296 <=? c) && (c <=? 56319).
Definition is_low_surrogate (c : code_unit) : bool := (56320 <=? c) && (c <=? 57343).

(** [\uXXXX] with lower-case digits. *)
Definition unicode_escape (c : code_unit) : jsstring :=
  js "\u" ++ [hex_digit (c / 4096 mod 16); hex_digit (c / 256 mod 16);
              hex_digit (c / 16 mod 16); hex_digit (c mod 16)].

Definition quote_unit (c : code_unit) : jsstring :=
  if c =? 8 then js "\b"
  else if c =? 9 then js "\t"
  else if c =? 10 then js "\n"
  else if c =? 12 then js "\f"
  else if c =? 13 then js "\r"
  else if c =? DQUOTE then [BACKSLASH; DQUOTE]
  else if c =? BACKSLASH then [BACKSLASH; BACKSLASH]
  else if c <? 32 then unicode_escape c
  else [c].

(** The characters between the quotes of [QuoteJSONString]: a surrogate
    that is not part of a pair is escaped. *)
Fixpoint quote_units (s : jsstring) : jsstring :=
  match s with
  | [] => []
  | c :: rest =>
      if is_high_surrogate c then
        match rest with
        | d :: rest' =>
            if is_low_surrogate d then c :: d :: quote_units rest'
            else unicode_escape c ++ quote_units rest
        | [] => unicode_escape c
        end
      else if is_low_surrogate c then unicode_escape c ++ quote_units rest
      else quote_unit c ++ quote_units rest
  end.

Definition QuoteJSONString (s : jsstring) : jsstring :=
  [DQUOTE] ++ quote_units s ++ [DQUOTE].

(** [JSON.stringify] of an object literal whose property values are
    strings or [undefined]; a property whose value is [undefined] is left
    out. *)
Definition stringify_property (p : jsstring * option jsstring) : list jsstring :=
  match p with
  | (k, Some v) => [QuoteJSONString k ++ js ":" ++ QuoteJSONString v]
  | (_, None) => []
  end.

Definition JSON_stringify (props : list (jsstring * option jsstring)) : jsstring :=
  js "{" ++ join (js ",") (flat_map stringify_property props) ++ js "}".

(** ** JSON.parse: the lexer *)

Inductive token : Type :=
| TLBrace | TRBrace | TLBrack | TRBrack | TColon | TComma
| TStr (s : jsstring)
| TNum (lexeme : jsstring)
| TTrue | TFalse | TNull.

(** The lexer reads one code unit at a time. *)
Inductive lex_state : Type :=
| LDefault
| LString (acc : jsstring)                   (* in a string; [acc] is reversed *)
| LEscape (acc : jsstring)                   (* after a backslash *)
| LUnicode (acc : jsstring) (digits : list N) (* after [\u] *)
| LNumber (acc : jsstring)                   (* in a number; [acc] is reversed *)
| LLiteral (rest : jsstring) (t : token).    (* in [true], [false] or [null] *)

Definition is_digit (c : code_unit) : bool := (48 <=? c) && (c <=? 57).

Definition is_json_space (c : code_unit) : bool :=
  (c =? 32) || (c =? 9) || (c =? 10) || (c =? 13).

(** The characters a number is made of. *)
Definition number_char (c : code_unit) : bool :=
  is_digit c || (c =? 45) || (c =? 43) || (c =? 46) || (c =? 101) || (c =? 69).

Fixpoint skip_digits (l : jsstring) : jsstring :=
  match l with
  | c :: rest => if is_digit c then skip_digits rest else l
  | [] => []
  end.

Definition valid_exponent (l : jsstring) : bool :=
  match l with
  | [] => true
  | e :: rest =>
      if (e =? 101) || (e =? 69) then
        let digits := match rest with
                      | sign :: rest' =>
                          if (sign =? 43) || (sign =? 45) then rest' else rest
                      | [] => []
                      end in
        match digits with
        | d :: more => is_digit d && is_empty (skip_digits more)
        | [] => false
        end
      else false
  end.

Definition valid_fraction (l : jsstring) : bool :=
  match l with
  | c :: rest =>
      if c =? 46 then
        match rest with
        | d :: more => is_digit d && valid_exponent (skip_digits more)
        | [] => false
        end
      else valid_exponent l
  | [] => true
  end.

(** The number grammar: an optional minus, then 0 or a digit 1-9 and
    more digits, then an optional fraction (a point and digits), then an
    optional exponent (e or E, an optional sign, digits). *)
Definition valid_number (l : jsstring) : bool :=
  let unsigned := match l with
                  | c :: rest => if c =? 45 then rest else l
                  | [] => []
                  end in
  match unsigned with
  | c :: rest =>
      if c =? 48 then valid_fraction rest
      else if is_digit c then valid_fraction (skip_digits rest)
      else false
  | [] => false
  end.

Definition step_default (c : code_unit) : option (list token * lex_state) :=
  if is_json_space c then Some ([], LDefault)
  else if c =? 123 then Some ([TLBrace], LDefault)
  else if c =? 125 then Some ([TRBrace], LDefault)
  else if c =? 91 then Some ([TLBrack], LDefault)
  else if c =? 93 then Some ([TRBrack], LDefault)
  else if c =? 58 then Some ([TColon], LDefault)
  else if c =? 44 then Some ([TComma], LDefault)
  else if c =? DQUOTE then Some ([], LString [])
  else if is_digit c || (c =? 45) then Some ([], LNumber [c])
  else if c =? 116 then Some ([], LLiteral (js "rue") TTrue)
  else if c =? 102 then Some ([], LLiteral (js "alse") TFalse)
  else if c =? 110 then Some ([], LLiteral (js "ull") TNull)
  else None.

Definition escape_unit (c : code_unit) : option code_unit :=
  if c =? DQUOTE then Some DQUOTE
  else if c =? BACKSLASH then Some BACKSLASH
  else if c =? 47 then Some 47
  else if c =? 98 then Some 8
  else if c =? 102 then Some 12
  else if c =? 110 then Some 10
  else if c =? 114 then Some 13
  else if c =? 116 then Some 9
  else None.

Definition lex_step (st : lex_state) (c : code_unit)
    : option (list token * lex_state) :=
  match st with
  | LDefault => step_default c
  | LString acc =>
      if c =? DQUOTE then Some ([TStr (rev acc)], LDefault)
      else if c =? BACKSLASH then Some ([], LEscape acc)
      else if c <? 32 then None
      else Some ([], LString (c :: acc))
  | LEscape acc =>
      if c =? 117 then Some ([], LUnicode acc [])
      else
        match escape_unit c with
        | Some u => Some ([], LString (u :: acc))
        | None => None
        end
  | LUnicode acc digits =>
      match hex_value c with
      | Some d =>
          match digits with
          | [d1; d2; d3] =>
              Some ([], LString ((((d1 * 16 + d2) * 16 + d3) * 16 + d) :: acc))
          | _ => Some ([], LUnicode acc (digits ++ [d]))
          end
      | None => None
      end
  | LNumber acc =>
      if number_char c then Some ([], LNumber (c :: acc))
      else if valid_number (rev acc) then
        match step_default c with
        | Some (toks, st') => Some (TNum (rev acc) :: toks, st')
        | None => None
        end
      else None
  | LLiteral rest t =>
      match rest with
      | x :: rest' =>
          if c =? x then
            match rest' with
            | [] => Some ([t], LDefault)
            | _ => Some ([], LLiteral rest' t)
            end
          else None
      | [] => None
      end
  end.

Definition lex_finish (st : lex_state) : option (list token) :=
  match st with
  | LDefault => Some []
  | LNumber acc => if valid_number (rev acc) then Some [TNum (rev acc)] else None
  | _ => None
  end.

Fixpoint lex (st : lex_state) (text : jsstring) : option (list token) :=
  match text with
  | [] => lex_finish st
  | c :: rest =>
      match lex_step st c with
      | Some (toks, st') =>
          match lex st' rest with
          | Some more => Some (toks ++ more)
          | None => None
          end
      | None => None
      end
  end.

(** ** JSON.parse: the parser *)

(** [CreateDataProperty]: a repeated key keeps its place and takes the
    new value. *)
Fixpoint obj_set (members : list (jsstring * value)) (k : jsstring) (v : value)
    : list (jsstring * value) :=
  match members with
  | [] => [(k, v)]
  | (k', v') :: rest =>
      if jseqb k' k then (k', v) :: rest else (k', v') :: obj_set rest k v
  end.

Fixpoint obj_get (members : list (jsstring * value)) (k : jsstring) : option value :=
  match members with
  | [] => None
  | (k', v') :: rest => if jseqb k' k then Some v' else obj_get rest k
  end.

(** A container under construction; what is read so far is reversed in an
    array and in order in an object. *)
Inductive frame : Type :=
| FArr (elems : list value)
| FObj (members : list (jsstring * value)) (key : jsstring).

Inductive parse_state : Type :=
| SValue (stack : list frame)             (* a value is due *)
| SArrFirst (stack : list frame)          (* after [[] *)
| SArrAfter (elems : list value) (stack : list frame)
| SObjFirst (stack : list frame)          (* after [{] *)
| SObjKey (members : list (jsstring * value)) (stack : list frame)
| SColon (members : list (jsstring * value)) (key : jsstring) (stack : list frame)
| SObjAfter (members : list (jsstring * value)) (stack : list frame)
| SDone (v : value).

(** A value is complete: it goes into the container around it. *)
Definition complete (v : value) (stack : list frame) : parse_state :=
  match stack with
  | [] => SDone v
  | FArr elems :: outer => SArrAfter (v :: elems) outer
  | FObj members key :: outer => SObjAfter (obj_set members key v) outer
  end.

Definition value_start (t : token) (stack : list frame) : option parse_state :=
  match t with
  | TStr s => Some (complete (JStr s) stack)
  | TNum n => Some (complete (JNum n) stack)
  | TTrue => Some (complete (JBool true) stack)
  | TFalse => Some (complete (JBool false) stack)
  | TNull => Some (complete JNull stack)
  | TLBrack => Some (SArrFirst stack)
  | TLBrace => Some (SObjFirst stack)
  | _ => None
  end.

Definition parse_step (st : parse_state) (t : token) : option parse_state :=
  match st with
  | SValue stack => value_start t stack
  | SArrFirst stack =>
      match t with
      | TRBrack => Some (complete (JArr []) stack)
      | _ => value_start t (FArr [] :: stack)
      end
  | SArrAfter elems stack =>
      match t with
      | TComma => Some (SValue (FArr elems :: stack))
      | TRBrack => Some (complete (JArr (rev elems)) stack)
      | _ => None
      end
  | SObjFirst stack =>
      match t with
      | TRBrace => Some (complete (JObj []) stack)
      | TStr k => Some (SColon [] k stack)
      | _ => None
      end
  | SObjKey members stack =>
      match t with
      | TStr k => Some (SColon members k stack)
      | _ => None
      end
  | SColon members key stack =>
      match t with
      | TColon => Some (SValue (FObj members key :: stack))
      | _ => None
      end
  | SObjAfter members stack =>
      match t with
      | TComma => Some (SObjKey members stack)
      | TRBrace => Some (complete (JObj members) stack)
      | _ => None
      end
  | SDone _ => None
  end.

Fixpoint parse_tokens (st : parse_state) (toks : list token) : option parse_state :=
  match toks with
  | [] => Some st
  | t :: rest =>
      match parse_step st t with
      | Some st' => parse_tokens st' rest
      | None => None
      end
  end.

(** The value a JSON text denotes, before any reviver. *)
Definition parse_text (text : jsstring) : Result value :=
  match lex LDefault text with
  | Some toks =>
      match parse_tokens (SValue []) toks with
      | Some (SDone v) => Ok v
      | _ => Throw (ErrorObject (SyntaxError text))
      end
  | None => Throw (ErrorObject (SyntaxError text))
  end.

(** ** The order in which the properties of an object are visited *)

Fixpoint digits_value (acc : N) (l : jsstring) : option N :=
  match l with
  | [] => Some acc
  | c :: rest => if is_digit c then digits_value (acc * 10 + (c - 48)) rest else None
  end.

(** The array index a property key denotes, if any: a canonical decimal
    below [2^32 - 1]. *)
Definition array_index (k : jsstring) : option N :=
  match k with
  | [] => None
  | c :: rest =>
      if (c =? 48) && negb (is_empty rest) then None
      else if Nat.ltb 10 (List.length k) then None
      else
        match digits_value 0 k with
        | Some n => if n <? 4294967295 then Some n else None
        | None => None
        end
  end.

Fixpoint insert_by_index {A} (n : N) (x : A) (l : list (N * A)) : list (N * A) :=
  match l with
  | [] => [(n, x)]
  | (m, y) :: rest =>
      if n <? m then (n, x) :: l else (m, y) :: insert_by_index n x rest
  end.

(** [OrdinaryOwnPropertyKeys]: array indices in ascending order, then the
    other keys in the order of their creation. *)
Definition own_property_order {A} (members : list (jsstring * A)) : list A :=
  let indexed :=
    fold_right (fun p acc => match array_index (fst p) with
                             | Some n => insert_by_index n (snd p) acc
                             | None => acc
                             end) [] members in
  let named :=
    filter (fun p => match array_index (fst p) with
                     | Some _ => false
                     | None => true
                     end) members in
  List.map snd indexed ++ List.map snd named.

(** ** decodeURIComponent: percent escapes and UTF-8 *)

Inductive uri_item : Type :=
| Unit (c : code_unit)       (* a code unit that stands for itself *)
| Octet (b : N).             (* the byte of an escape [%XX] *)

Fixpoint percent_items (s : jsstring) : option (list uri_item) :=
  match s with
  | [] => Some []
  | c :: rest =>
      if c =? PERCENT then
        match rest with
        | h1 :: h2 :: rest' =>
            match hex_value h1, hex_value h2, percent_items rest' with
            | Some a, Some b, Some items => Some (Octet (16 * a + b) :: items)
            | _, _, _ => None
            end
        | _ => None
        end
      else
        match percent_items rest with
        | Some items => Some (Unit c :: items)
        | None => None
        end
  end.

Definition is_continuation (b : N) : bool := (128 <=? b) && (b <? 192).

Definition UTF16Encode (cp : N) : jsstring :=
  if cp <? 65536 then [cp]
  else [55296 + (cp - 65536) / 1024; 56320 + (cp - 65536) mod 1024].

(** The code point is accepted when it needs the number of bytes it was
    written with, is not a surrogate and is at most [U+10FFFF]. *)
Definition valid_code_point (least cp : N) : bool :=
  (least <=? cp) && (cp <=? 1114111) && negb ((55296 <=? cp) && (cp <=? 57343)).

Fixpoint utf8_units (l : list uri_item) : option jsstring :=
  match l with
  | [] => Some []
  | Unit c :: rest =>
      match utf8_units rest with
      | Some s => Some (c :: s)
      | None => None
      end
  | Octet b :: rest =>
      if b <? 128 then
        match utf8_units rest with
        | Some s => Some (b :: s)
        | None => None
        end
      else if b <? 192 then None
      else if b <? 224 then
        match rest with
        | Octet b1 :: rest' =>
            let cp := (b - 192) * 64 + (b1 - 128) in
            if is_continuation b1 && valid_code_point 128 cp then
              match utf8_units rest' with
              | Some s => Some (UTF16Encode cp ++ s)
              | None => None
              end
            else None
        | _ => None
        end
      else if b <? 240 then
        match rest with
        | Octet b1 :: Octet b2 :: rest' =>
            let cp := ((b - 224) * 64 + (b1 - 128)) * 64 + (b2 - 128) in
            if is_continuation b1 && is_continuation b2
               && valid_code_point 2048 cp then
              match utf8_units rest' with
              | Some s => Some (UTF16Encode cp ++ s)
              | None => None
              end
            else None
        | _ => None
        end
      else if b <? 248 then
        match rest with
        | Octet b1 :: Octet b2 :: Octet b3 :: rest' =>
            let cp := (((b - 240) * 64 + (b1 - 128)) * 64 + (b2 - 128)) * 64
                      + (b3 - 128) in
            if is_continuation b1 && is_continuation b2 && is_continuation b3
               && valid_code_point 65536 cp then
              match utf8_units rest' with
              | Some s => Some (UTF16Encode cp ++ s)
              | None => None
              end
            else None
        | _ => None
        end
      else None
  end.

(** [Decode] with an empty set of reserved characters. *)
Definition Decode (s : jsstring) : Result jsstring :=
  match percent_items s with
  | Some items =>
      match utf8_units items with
      | Some r => Ok r
      | None => Throw (ErrorObject URIError)
      end
  | None => Throw (ErrorObject URIError)
  end.

(** ** The outbound request and the world the handler acts on *)

(** What [fetch] is called with, the method as [node-fetch] normalises it
    (upper case). *)
Record Request : Type := {
  req_url : jsstring;
  req_method : jsstring;
  req_headers : list (jsstring * jsstring);
  req_body : jsstring
}.

Record LogEntry : Type := {
  log_text : jsstring;
  log_error_value : exn
}.

(** The effects of one invocation: the requests sent and the lines
    logged, oldest first. *)
Record World : Type := {
  calls : list Request;
  logs : list LogEntry
}.

Definition empty_world : World := {| calls := []; logs := [] |}.

Record APIGatewayProxyEvent : Type := {
  body : option jsstring      (* [string | null]; the other fields are not read *)
}.

Record APIGatewayProxyResult : Type := {
  statusCode : N;
  response_body : jsstring
}.

(** A computation that may throw and acts on the world; the effects made
    before a [throw] stay. *)
Definition M (A : Type) : Type := World -> Result A * World.

Definition ret {A} (a : A) : M A := fun w => (Ok a, w).

Definition bind {A B} (m : M A) (f : A -> M B) : M B :=
  fun w =>
    match m w with
    | (Ok a, w') => f a w'
    | (Throw e, w') => (Throw e, w')
    end.

Definition lift {A} (r : Result A) : M A := fun w => (r, w).

(** [try { m } catch (e) { handler e }] *)
Definition try_catch {A} (m : M A) (handler : exn -> M A) : M A :=
  fun w =>
    match m w with
    | (Ok a, w') => (Ok a, w')
    | (Throw e, w') => handler e w'
    end.

Declare Scope js_scope.
Delimit Scope js_scope with js_m.
Notation "x <-- m ;; k" := (bind m (fun x => k))
  (at level 61, m at next level, right associativity) : js_scope.
Notation "m ;;; k" := (bind m (fun _ => k))
  (at level 61, right associativity) : js_scope.

(** [log.error(text, JSON.stringify(error))] *)
Definition log_error (text : jsstring) (error : exn) : M unit :=
  fun w =>
    (Ok tt, {| calls := calls w;
               logs := logs w ++ [{| log_text := text; log_error_value := error |}] |}).

(** ** The words of the specification *)

(** [m] begins with [p], letters compared without regard to case. *)
Fixpoint ci_prefix (p m : jsstring) : bool :=
  match p, m with
  | [], _ => true
  | a :: p', b :: m' => (ascii_upper b =? ascii_upper a) && ci_prefix p' m'
  | _ :: _, [] => false
  end.

(** The message begins with [https:], [http:] or [www.]. *)
Definition begins_with_url_prefix (m : jsstring) : bool :=
  ci_prefix (js "https:") m || ci_prefix (js "http:") m || ci_prefix (js "www.") m.

(** The longest run of characters other than white space that the message
    begins with. *)
Definition leading_token (m : jsstring) : jsstring :=
  take_while (fun c => negb (is_white_space c)) m.

(** A character of a key or a value that the substitution leaves alone
    and that a JSON string takes as it is. *)
Definition plain_char (c : code_unit) : bool :=
  (32 <=? c) && negb (c =? DQUOTE) && negb (c =? BACKSLASH)
  && negb (c =? AMPERSAND) && negb (c =? EQUALS).

Definition plain (s : jsstring) : bool := forallb plain_char s.

(** A visible character of ASCII. *)
Definition printable (c : code_unit) : Prop := 33 <= c /\ c <= 126.

(** The body [k1=v1&k2=v2&...] of a list of pairs. *)
Definition form_body (pairs : list (jsstring * jsstring)) : jsstring :=
  join [AMPERSAND] (List.map (fun p => fst p ++ [EQUALS] ++ snd p) pairs).

(** The value given last for a key. *)
Fixpoint last_value (pairs : list (jsstring * jsstring)) (k : jsstring)
    : option jsstring :=
  match pairs with
  | [] => None
  | (k', v) :: rest =>
      match last_value rest k with
      | Some v' => Some v'
      | None => if jseqb k' k then Some v else None
      end
  end.

Definition is_string (v : value) : bool :=
  match v with JStr _ => true | _ => false end.

(** An integer as [JSON.parse] would build it: a number without fraction
    or exponent. *)
Definition is_integer (v : value) : bool :=
  match v with
  | JNum lexeme =>
      valid_number lexeme
      && forallb (fun c => is_digit c || (c =? 45)) lexeme
  | _ => false
  end.

(** Every member but one with the empty key holds a string. *)
Definition named_strings (members : list (jsstring * value)) : Prop :=
  Forall (fun q => is_empty (fst q) = false -> exists s, snd q = JStr s) members.

(** The lexer on a part of the text: the tokens finished and the state
    it is left in. *)
Fixpoint lex_run (st : lex_state) (text : jsstring)
    : option (list token * lex_state) :=
  match text with
  | [] => Some ([], st)
  | c :: rest =>
      match lex_step st c with
      | Some (toks, st') =>
          match lex_run st' rest with
          | Some (more, st'') => Some (toks ++ more, st'')
          | None => None
          end
      | None => None
      end
  end.

(** What the two substitutions of the decoder do to a body. *)
Definition substituted (b : jsstring) : jsstring :=
  replace_all EQUALS ([DQUOTE] ++ js ":" ++ [DQUOTE])
    (replace_all AMPERSAND ([DQUOTE] ++ js "," ++ [DQUOTE]) b).

(** A pair as it stands in the JSON text, without the outer quotes. *)
Definition pair_text (p : jsstring * jsstring) : jsstring :=
  fst p ++ [DQUOTE] ++ js ":" ++ [DQUOTE] ++ snd p.

Definition member_tokens (pairs : list (jsstring * jsstring)) : list token :=
  join [TComma] (List.map (fun p => [TStr (fst p); TColon; TStr (snd p)]) pairs).

(** The object the pairs build, each value still percent-encoded. *)
Definition set_pairs (members : list (jsstring * value))
    (pairs : list (jsstring * jsstring)) : list (jsstring * value) :=
  fold_left (fun ms p => obj_set ms (fst p) (JStr (snd p))) pairs members.

Definition plain_pair (p : jsstring * jsstring) : Prop :=
  plain (fst p) = true /\ plain (snd p) = true.

(** A body whose last piece is arbitrary: the pairs [pre], then [piece],
    joined by [&]. *)
Definition body_with (pre : list (jsstring * jsstring)) (piece : jsstring)
    : jsstring :=
  join [AMPERSAND] (List.map (fun p => fst p ++ [EQUALS] ++ snd p) pre ++ [piece]).

(** The JSON text of pairs each followed by the substituted [&], and its
    tokens. *)
Definition lead (pre : list (jsstring * jsstring)) : jsstring :=
  flat_map (fun p => pair_text p ++ [DQUOTE] ++ js "," ++ [DQUOTE]) pre.

Definition lead_tokens (pre : list (jsstring * jsstring)) : list token :=
  flat_map (fun p => [TStr (fst p); TColon; TStr (snd p); TComma]) pre.

Definition is_syntax_error (r : Result value) : Prop :=
  exists text, r = Throw (ErrorObject (SyntaxError text)).

(** What may follow a member of an object. *)
Definition ends_member (c : code_unit) : bool :=
  is_json_space c || (c =? 44) || (c =? 125).

(** The first token the lexer owes once it has left its initial state. *)
Definition owed (st : lex_state) (t : token) : Prop :=
  match st with
  | LDefault => True
  | LString _ | LEscape _ | LUnicode _ _ => exists s, t = TStr s
  | LNumber _ => exists n, t = TNum n
  | LLiteral _ t' => t = t'
  end.

Definition not_a_separator (t : token) : Prop :=
  t <> TComma /\ t <> TRBrace.

(** Every element is a UTF-16 code unit. *)
Definition well_formed (s : jsstring) : Prop := Forall (fun c => c < 65536) s.

(** The properties [JSON.stringify] writes: those whose value is not
    [undefined]. *)
Definition defined_properties (props : list (jsstring * option jsstring))
    : list (jsstring * jsstring) :=
  flat_map (fun p => match snd p with
                     | Some v => [(fst p, v)]
                     | None => []
                     end) props.

Definition percent_free (s : jsstring) : bool :=
  forallb (fun c => negb (c =? PERCENT)) s.

(** The outermost container under construction is an object. *)
Fixpoint bottom_is_object (stack : list frame) : bool :=
  match stack with
  | [] => false
  | [FObj _ _] => true
  | [FArr _] => false
  | _ :: outer => bottom_is_object outer
  end.

Definition no_frames (stack : list frame) : bool :=
  match stack with [] => true | _ => false end.

(** The parser is inside a text whose value is an object, or has read
    one. *)
Definition within_object (st : parse_state) : bool :=
  match st with
  | SValue stack | SArrFirst stack | SArrAfter _ stack => bottom_is_object stack
  | SObjFirst stack | SObjKey _ stack | SColon _ _ stack | SObjAfter _ stack =>
      no_frames stack || bottom_is_object stack
  | SDone (JObj _) => true
  | SDone _ => false
  end.

(** ** An engine and an environment to run examples in *)

Definition sample_upper (c : code_unit) : code_unit :=
  if (224 <=? c) && (c <=? 254) && negb (c =? 247) then c - 32 else c.

Definition sample_number_to_string (lexeme : jsstring) : jsstring := lexeme.

Definition sample_error_message (e : js_error) : jsstring :=
  match e with
  | SyntaxError _ => js "Unexpected token in JSON"
  | URIError => js "URI malformed"
  | TypeError NotAFunction => js "message.match is not a function"
  | TypeError PropertyOfNullish => js "Cannot read properties of undefined"
  | TypeError ToPrimitiveFailed => js "Cannot convert object to primitive value"
  end.

Definition sample_token : option jsstring := Some (js "secret-token").
Definition sample_field_id : option jsstring := Some (js "1234").

(** The bodies of the examples. *)
Definition url_later_event : APIGatewayProxyEvent :=
  {| body := Some (js "message=Check https://example.com/path&ticket_id=42") |}.
Definition url_first_event : APIGatewayProxyEvent :=
  {| body := Some (js "message=https://example.com/path&ticket_id=42") |}.
Definition no_url_event : APIGatewayProxyEvent :=
  {| body := Some (js "message=Hello there&ticket_id=7") |}.
Definition no_message_event : APIGatewayProxyEvent :=
  {| body := Some (js "ticket_id=7") |}.
Definition absent_body_event : APIGatewayProxyEvent := {| body := None |}.
Definition encoded_quote_event : APIGatewayProxyEvent :=
  {| body := Some (js "message=a%22b%26c%3Dd&ticket_id=1") |}.
Definition plain_event : APIGatewayProxyEvent :=
  {| body := Some (js "message=hello&ticket_id=42") |}.

Definition network_up (r : Request) : option exn := None.
Definition network_down (r : Request) : option exn :=
  Some (Rejection true (js "request failed, reason: connect ECONNREFUSED")).

Section Handler.

(** The engine. *)
Variable unicode_upper : code_unit -> code_unit.
  (* upper-case mapping of a code unit outside ASCII, the unit itself when
     its upper case is not one code unit *)
Variable number_to_string : jsstring -> jsstring.
  (* [String(Number(lexeme))] *)
Variable error_message : js_error -> jsstring.
  (* the [message] of the error object the engine builds *)

(** The process environment. *)
Variable TRENGO_TOKEN : option jsstring.
Variable TRENGO_LINK_FIELD_ID : option jsstring.

(** The network: [None] when the promise of [fetch] resolves, [Some e]
    when it rejects with [e]. *)
Variable network : Request -> option exn.

(** *** Matching *)

(** [Canonicalize] without the [u] flag. *)
Definition Canonicalize (ignoreCase : bool) (ch : code_unit) : code_unit :=
  if ignoreCase then
    if ch <? 128 then ascii_upper ch
    else
      let cu := unicode_upper ch in
      if cu <? 128 then ch else cu
  else ch.

(** A matcher state is the index reached and the input from there on;
    a matcher takes a state and a continuation and yields the end index of
    the match. *)
Definition matcher_state : Type := nat * jsstring.
Definition continuation : Type := matcher_state -> option nat.

(** [RepeatMatcher] for a greedy [*]: one more round of [body] is tried
    first, the continuation [k] after that.  A round that consumes nothing
    is rejected, so of the [fuel] rounds, one more than the input is long,
    the last is never started. *)
Fixpoint iterate (body : matcher_state -> continuation -> option nat)
    (k : continuation) (fuel : nat) (x : matcher_state) : option nat :=
  match fuel with
  | O => k x
  | S fuel' =>
      match body x (fun y => if Nat.eqb (fst y) (fst x) then None
                             else iterate body k fuel' y) with
      | Some e => Some e
      | None => k x
      end
  end.

(** [rmatch ic r x k] runs [r] at [x] with continuation [k] and
    backtracks into [r] when [k] fails. *)
Fixpoint rmatch (ic : bool) (r : regex) (x : matcher_state) (k : continuation)
    {struct r} : option nat :=
  match r with
  | REmpty => k x
  | RStart => if Nat.eqb (fst x) 0 then k x else None
  | RChar c =>
      match snd x with
      | ch :: rest =>
          if Canonicalize ic ch =? Canonicalize ic c
          then k (S (fst x), rest) else None
      | [] => None
      end
  | RNonSpace =>
      (* no case mapping yields white space: the class is the same with
         and without [i] *)
      match snd x with
      | ch :: rest => if is_white_space ch then None else k (S (fst x), rest)
      | [] => None
      end
  | RSeq r1 r2 => rmatch ic r1 x (fun y => rmatch ic r2 y k)
  | RAlt r1 r2 =>
      match rmatch ic r1 x k with
      | Some e => Some e
      | None => rmatch ic r2 x k
      end
  | RGroup r1 => rmatch ic r1 x k
  | RStar r1 => iterate (rmatch ic r1) k (S (List.length (snd x))) x
  end.

(** The search of [RegExpBuiltinExec]: the first index from [i] on at
    which the pattern matches, with the end index. *)
Fixpoint search (ic : bool) (r : regex) (i : nat) (rest : jsstring)
    : option (nat * nat) :=
  match rmatch ic r (i, rest) (fun y => Some (fst y)) with
  | Some e => Some (i, e)
  | None =>
      match rest with
      | [] => None
      | _ :: rest' => search ic r (S i) rest'
      end
  end.

Definition set_lastIndex (rx : RegExp) (i : nat) : RegExp :=
  {| source := source rx; flag_global := flag_global rx;
     flag_ignoreCase := flag_ignoreCase rx; lastIndex := i |}.

(** [RegExpBuiltinExec] for a global expression: the match found and the
    object with its new [lastIndex]. *)
Definition RegExpExec (rx : RegExp) (s : jsstring) : option (nat * nat) * RegExp :=
  if Nat.ltb (List.length s) (lastIndex rx) then (None, set_lastIndex rx 0)
  else
    match search (flag_ignoreCase rx) (source rx) (lastIndex rx)
            (skipn (lastIndex rx) s) with
    | None => (None, set_lastIndex rx 0)
    | Some (b, e) => (Some (b, e), set_lastIndex rx e)
    end.

Definition substring (b e : nat) (s : jsstring) : jsstring :=
  firstn (e - b) (skipn b s).

(** The loop of [RegExp.prototype[Symbol.match]] for a global
    expression.  Every round moves [lastIndex] forward, so [fuel] rounds
    are enough when [fuel] exceeds the length of [s] by two. *)
Fixpoint match_loop (fuel : nat) (rx : RegExp) (s : jsstring) : list jsstring :=
  match fuel with
  | O => []
  | S fuel' =>
      match RegExpExec rx s with
      | (None, _) => []
      | (Some (b, e), rx') =>
          let matchStr := substring b e s in
          let rx'' := if is_empty matchStr
                      then set_lastIndex rx' (S (lastIndex rx')) else rx' in
          matchStr :: match_loop fuel' rx'' s
      end
  end.

(** [s.match(rx)] for a global [rx]: [null] or the non-empty array of
    all matches. *)
Definition RegExp_match (rx : RegExp) (s : jsstring) : option (list jsstring) :=
  match match_loop (S (S (List.length s))) (set_lastIndex rx 0) s with
  | [] => None
  | l => Some l
  end.

(** [message.match(regex)] where [message] is any value or [undefined]:
    only a string has a [match] method. *)
Definition String_match (message : option value) (rx : RegExp)
    : Result (option (list jsstring)) :=
  match message with
  | Some (JStr s) => Ok (RegExp_match rx s)
  | None | Some JNull => Throw (ErrorObject (TypeError PropertyOfNullish))
  | Some _ => Throw (ErrorObject (TypeError NotAFunction))
  end.

(** *** parseCustomTicketFields *)

(** [urls?.length] holds when the array is there and not empty.  Of the
    object given to [JSON.stringify], the property [custom_field_id] is
    left out when the field id is not configured. *)
Definition parseCustomTicketFields (message : option value)
    : Result (option jsstring) :=
  let regex := new_RegExp expression in
  (urls <- String_match message regex ;;
   match urls with
   | Some (url0 :: _) =>
       Ok (Some (JSON_stringify
                   [(js "custom_field_id", TRENGO_LINK_FIELD_ID);
                    (js "value", Some url0)]))
   | _ => Ok None
   end)%result.

(** *** Conversion to a string *)

Definition has_key (members : list (jsstring * value)) (k : jsstring) : bool :=
  match obj_get members k with Some _ => true | None => false end.

(** [ToString] of a value built by [JSON.parse].  An array goes through
    [Array.prototype.join]; an object through [Object.prototype.toString],
    unless it has a property of its own called [toString], which is never
    callable: then the conversion to a primitive fails. *)
Fixpoint ToString (v : value) : Result jsstring :=
  match v with
  | JNull => Ok (js "null")
  | JBool true => Ok (js "true")
  | JBool false => Ok (js "false")
  | JNum lexeme => Ok (number_to_string lexeme)
  | JStr s => Ok s
  | JArr elems =>
      (strs <- sequence
                 (List.map (fun x => match x with
                                     | JNull => Ok []
                                     | _ => ToString x
                                     end) elems) ;;
       Ok (join (js ",") strs))
  | JObj members =>
      if has_key members (js "toString")
      then Throw (ErrorObject (TypeError ToPrimitiveFailed))
      else Ok (js "[object Object]")
  end%result.

Definition decodeURIComponent (v : value) : Result jsstring :=
  (s <- ToString v ;; Decode s)%result.

(** A template literal part [${x}]. *)
Definition template (x : option value) : Result jsstring :=
  match x with
  | Some v => ToString v
  | None => Ok (js "undefined")
  end.

Definition template_string (x : option jsstring) : jsstring :=
  match x with
  | Some s => s
  | None => js "undefined"
  end.

(** *** The request decoder *)

(** [(key, value) => key === '' ? value : decodeURIComponent(value)] *)
Definition reviver (key : jsstring) (v : value) : Result value :=
  if is_empty key then Ok v
  else (s <- decodeURIComponent v ;; Ok (JStr s))%result.

(** The members of an object after the walk: the first exception in the
    order of the visit, or else every member with its new value, in its
    place. *)
Definition in_visit_order (walked : list (jsstring * Result value))
    : Result (list (jsstring * value)) :=
  (_ <- sequence (own_property_order walked) ;;
   sequence (List.map (fun p => (x <- snd p ;; Ok (fst p, x))) walked))%result.

(** [InternalizeJSONProperty] with the handler's reviver, which never
    returns [undefined]: no property is deleted. *)
Fixpoint internalize (name : jsstring) (v : value) : Result value :=
  match v with
  | JArr elems =>
      (elems' <- sequence
                   (map_indexed (fun i x => internalize (decimal i) x) 0 elems) ;;
       reviver name (JArr elems'))
  | JObj members =>
      (members' <- in_visit_order
                     (List.map (fun p => (fst p, internalize (fst p) (snd p)))
                        members) ;;
       reviver name (JObj members'))
  | _ => reviver name v
  end%result.

(** [JSON.parse(text, reviver)] *)
Definition JSON_parse (text : jsstring) : Result value :=
  (unfiltered <- parse_text text ;; internalize [] unfiltered)%result.

(** The operand of [+] next to a string: [undefined] is spelled out. *)
Definition concat_operand (x : option jsstring) : jsstring :=
  match x with
  | Some s => s
  | None => js "undefined"
  end.

(** [JSON.parse('{"' + event.body?.replace(/&/g, '","').replace(/=/g, '":"') + '"}', ...)] *)
Definition decode_body (event : APIGatewayProxyEvent) : Result value :=
  JSON_parse
    (js "{" ++ [DQUOTE]
     ++ concat_operand
          (option_map
             (fun b => replace_all EQUALS ([DQUOTE] ++ js ":" ++ [DQUOTE])
                         (replace_all AMPERSAND ([DQUOTE] ++ js "," ++ [DQUOTE]) b))
             (body event))
     ++ [DQUOTE] ++ js "}").

(** [body.message] and [body.ticket_id]: neither name is a property of a
    prototype, so only an object's own members can answer. *)
Definition get_property (v : value) (name : jsstring) : Result (option value) :=
  match v with
  | JObj members => Ok (obj_get members name)
  | JNull => Throw (ErrorObject (TypeError PropertyOfNullish))
  | _ => Ok None
  end.

(** *** sendToTrengo *)

(** [fetch(url, { headers, method, body })]: the request leaves, then the
    promise resolves or rejects. *)
Definition fetch (url : jsstring) (headers : list (jsstring * jsstring))
    (method : jsstring) (payload : jsstring) : M unit :=
  fun w =>
    let request := {| req_url := url; req_method := List.map ascii_upper method;
                      req_headers := headers; req_body := payload |} in
    let w' := {| calls := calls w ++ [request]; logs := logs w |} in
    match network request with
    | None => (Ok tt, w')
    | Some e => (Throw e, w')
    end.

(** The ticket id is typed [number] but comes from a value typed [any]:
    it is whatever the decoder returned, or [undefined].  The URL is built
    inside the [try]. *)
Definition sendToTrengo (message : jsstring) (ticketId : option value) : M unit :=
  let headers :=
    [(js "Accept", js "application/json");
     (js "Authorization", js "Bearer " ++ template_string TRENGO_TOKEN);
     (js "Content-Type", js "application/json")] in
  try_catch
    (id <-- lift (template ticketId) ;;
     fetch (js "https://app.trengo.com/api/v2/tickets/" ++ id ++ js "/custom_fields")
       headers (js "post") message)%js_m
    (fun error => log_error (js "Error when sending to Trengo") error).

(** *** lambdaHandler *)

(** [err instanceof Error ? err.message : 'some error happened'] *)
Definition error_text (err : exn) : jsstring :=
  match err with
  | ErrorObject e => error_message e
  | Rejection true message => message
  | Rejection false _ => js "some error happened"
  end.

(** [if (customTicketFields)] is taken for a string that is not empty. *)
Definition lambdaHandler (event : APIGatewayProxyEvent) : M APIGatewayProxyResult :=
  try_catch
    (body <-- lift (decode_body event) ;;
     message <-- lift (get_property body (js "message")) ;;
     ticketId <-- lift (get_property body (js "ticket_id")) ;;
     customTicketFields <-- lift (parseCustomTicketFields message) ;;
     match customTicketFields with
     | Some fields =>
         if is_empty fields then ret tt else sendToTrengo fields ticketId
     | None => ret tt
     end ;;;
     id <-- lift (template ticketId) ;;
     ret {| statusCode := 201;
            response_body :=
              JSON_stringify
                [(js "message",
                  Some (js "Ticket's " ++ id ++ js " custom fields set"))] |})%js_m
    (fun err =>
       (log_error (js "Error") err ;;;
        ret {| statusCode := 500;
               response_body :=
                 JSON_stringify [(js "message", Some (error_text err))] |})%js_m).

(** *** What the properties are stated with *)

(** The update the extractor builds for a URL. *)
Definition link_update (url : jsstring) : jsstring :=
  JSON_stringify [(js "custom_field_id", TRENGO_LINK_FIELD_ID);
                  (js "value", Some url)].

(** The request the specification describes for a ticket and a payload. *)
Definition trengo_request (id payload : jsstring) : Request :=
  {| req_url := js "https://app.trengo.com/api/v2/tickets/" ++ id
                ++ js "/custom_fields";
     req_method := js "POST";
     req_headers :=
       [(js "Accept", js "application/json");
        (js "Authorization", js "Bearer " ++ template_string TRENGO_TOKEN);
        (js "Content-Type", js "application/json")];
     req_body := payload |}.

(** The handler up to the notifier: the ticket id read from the body and
    what the extractor returned. *)
Definition extraction (event : APIGatewayProxyEvent)
    : Result (option value * option jsstring) :=
  (body <- decode_body event ;;
   message <- get_property body (js "message") ;;
   ticketId <- get_property body (js "ticket_id") ;;
   fields <- parseCustomTicketFields message ;;
   Ok (ticketId, fields))%result.

Definition success_response (id : jsstring) : APIGatewayProxyResult :=
  {| statusCode := 201;
     response_body :=
       JSON_stringify
         [(js "message", Some (js "Ticket's " ++ id ++ js " custom fields set"))] |}.

Definition failure_response (err : exn) : APIGatewayProxyResult :=
  {| statusCode := 500;
     response_body := JSON_stringify [(js "message", Some (error_text err))] |}.

(** The response as the event alone decides it. *)
Definition response_of (event : APIGatewayProxyEvent) : APIGatewayProxyResult :=
  match (x <- extraction event ;; template (fst x))%result with
  | Ok id => success_response id
  | Throw e => failure_response e
  end.

Definition logged (w : World) (text : jsstring) (e : exn) : World :=
  {| calls := calls w;
     logs := logs w ++ [{| log_text := text; log_error_value := e |}] |}.

(** The world after the notifier has run for ticket [id] and [payload]. *)
Definition notified (w : World) (id payload : jsstring) : World :=
  let w' := {| calls := calls w ++ [trengo_request id payload];
               logs := logs w |} in
  match network (trengo_request id payload) with
  | None => w'
  | Some e => logged w' (js "Error when sending to Trengo") e
  end.

(** ** Properties of the matcher *)

Lemma ascii_upper_below (c : code_unit) : c < 128 -> ascii_upper c < 128.
Proof.
  intros H. unfold ascii_upper.
  destruct ((97 <=? c) && (c <=? 122)); lia.
Qed.

(** Against a pattern character of ASCII, [Canonicalize] compares as
    ASCII upper-casing does: no character outside ASCII is mapped into
    it. *)
Lemma canonical_ascii (ch c : code_unit) :
  c < 128 ->
  (Canonicalize true ch =? Canonicalize true c)
  = (ascii_upper ch =? ascii_upper c).
Proof.
  intros Hc. pose proof (ascii_upper_below c Hc) as Hu.
  unfold Canonicalize.
  destruct (N.ltb_spec c 128) as [_|?]; [|lia].
  destruct (N.ltb_spec ch 128) as [Hch|Hch]; [reflexivity|].
  assert (Hup : ascii_upper ch = ch).
  { unfold ascii_upper.
    destruct (N.leb_spec 97 ch), (N.leb_spec ch 122); simpl; lia. }
  rewrite Hup.
  cbv zeta.
  destruct (N.ltb_spec (unicode_upper ch) 128); [reflexivity|].
  transitivity false; [|symmetry]; apply N.eqb_neq; lia.
Qed.

Lemma rmatch_literal (p : jsstring) :
  Forall (fun c => c < 128) p ->
  forall (i : nat) (m : jsstring) (k : continuation),
    rmatch true (literal p) (i, m) k
    = if ci_prefix p m
      then k (i + List.length p, skipn (List.length p) m)%nat
      else None.
Proof.
  induction p as [|c p IH]; intros Hp i m k.
  - simpl. now rewrite Nat.add_0_r.
  - inversion Hp as [|? ? Hc Hp']; subst.
    assert (Hstep : rmatch true (literal (c :: p)) (i, m) k
                    = rmatch true (RChar c) (i, m)
                        (fun y => rmatch true (literal p) y k)).
    { destruct p; reflexivity. }
    rewrite Hstep. cbn [rmatch fst snd].
    destruct m as [|b m]; [reflexivity|].
    rewrite canonical_ascii by assumption.
    cbn [ci_prefix List.length skipn].
    destruct (ascii_upper b =? ascii_upper c); [|reflexivity].
    rewrite IH by assumption. cbn [andb].
    now rewrite Nat.add_succ_r.
Qed.

Lemma iterate_non_space (fuel i : nat) (m : jsstring) :
  (List.length m < fuel)%nat ->
  iterate (rmatch true RNonSpace) (fun y => Some (fst y)) fuel (i, m)
  = Some (i + List.length (leading_token m))%nat.
Proof.
  revert fuel i. induction m as [|c m IH]; intros fuel i Hf.
  - destruct fuel; [inversion Hf|]. simpl. now rewrite Nat.add_0_r.
  - destruct fuel; [inversion Hf|].
    cbn [iterate rmatch fst snd leading_token take_while].
    destruct (is_white_space c); cbn [negb].
    + simpl. now rewrite Nat.add_0_r.
    + assert (Hne : Nat.eqb (S i) i = false) by (apply Nat.eqb_neq; lia).
      rewrite Hne, IH by (simpl in Hf; lia).
      cbn [List.length]. now rewrite Nat.add_succ_r.
Qed.

Ltac decide_comparisons :=
  repeat match goal with
  | |- context [?x =? ?y] =>
      first [ replace (x =? y) with false by (symmetry; apply N.eqb_neq; lia)
            | replace (x =? y) with true by (symmetry; apply N.eqb_eq; lia) ]
  | |- context [?x <=? ?y] =>
      first [ replace (x <=? y) with false by (symmetry; apply N.leb_gt; lia)
            | replace (x <=? y) with true by (symmetry; apply N.leb_le; lia) ]
  | |- context [?x <? ?y] =>
      first [ replace (x <? y) with false by (symmetry; apply N.ltb_ge; lia)
            | replace (x <? y) with true by (symmetry; apply N.ltb_lt; lia) ]
  end.

Lemma printable_not_space (c : code_unit) :
  printable c -> is_white_space c = false.
Proof.
  intros [Hlo Hhi]. unfold is_white_space. decide_comparisons. reflexivity.
Qed.

Lemma upper_eq_printable (a b : code_unit) :
  printable a -> ascii_upper b = ascii_upper a -> printable b.
Proof.
  unfold printable, ascii_upper. intros [Hlo Hhi].
  destruct (N.leb_spec 97 a), (N.leb_spec a 122),
           (N.leb_spec 97 b), (N.leb_spec b 122); simpl; lia.
Qed.

Lemma ci_prefix_printable (p m : jsstring) :
  Forall printable p -> ci_prefix p m = true ->
  Forall printable (firstn (List.length p) m)
  /\ List.length (firstn (List.length p) m) = List.length p.
Proof.
  revert m. induction p as [|a p IH]; intros m Hp H.
  - split; [constructor|reflexivity].
  - destruct m as [|b m]; [discriminate|].
    inversion Hp; subst. simpl in H.
    apply andb_true_iff in H as [Hab Hrest].
    apply N.eqb_eq in Hab.
    destruct (IH m) as [Hall Hlen]; try assumption.
    split; simpl; [constructor|now rewrite Hlen].
    + eapply upper_eq_printable; eassumption.
    + assumption.
Qed.

Lemma leading_token_app (a b : jsstring) :
  Forall printable a -> leading_token (a ++ b) = a ++ leading_token b.
Proof.
  induction 1 as [|c a Hc Ha IH]; [reflexivity|].
  unfold leading_token in *. simpl.
  rewrite (printable_not_space c Hc). simpl. now rewrite IH.
Qed.

Lemma ci_prefix_token (p m : jsstring) :
  Forall printable p -> ci_prefix p m = true ->
  leading_token m
  = firstn (List.length p) m ++ leading_token (skipn (List.length p) m).
Proof.
  intros Hp H.
  destruct (ci_prefix_printable p m Hp H) as [Hall _].
  rewrite <- (firstn_skipn (List.length p) m) at 1.
  now apply leading_token_app.
Qed.

Lemma ci_prefix_token_length (p m : jsstring) :
  Forall printable p -> ci_prefix p m = true ->
  (List.length p + List.length (leading_token (skipn (List.length p) m)))%nat
  = List.length (leading_token m).
Proof.
  intros Hp H.
  rewrite (ci_prefix_token p m Hp H), length_app.
  destruct (ci_prefix_printable p m Hp H) as [_ Hlen]. now rewrite Hlen.
Qed.

Lemma ci_prefix_app (p a b : jsstring) :
  ci_prefix p a = true -> ci_prefix p (a ++ b) = true.
Proof.
  revert a. induction p as [|c p IH]; intros a H; [reflexivity|].
  destruct a as [|x a]; [discriminate|]. simpl in *.
  apply andb_true_iff in H as [H1 H2]. now rewrite H1, IH.
Qed.

Lemma ci_prefix_firstn (p m : jsstring) :
  ci_prefix p m = true -> ci_prefix p (firstn (List.length p) m) = true.
Proof.
  revert m. induction p as [|c p IH]; intros m H; [reflexivity|].
  destruct m as [|x m]; [discriminate|]. simpl in *.
  apply andb_true_iff in H as [H1 H2]. now rewrite H1, IH.
Qed.

Lemma take_while_length (p : code_unit -> bool) (m : jsstring) :
  (List.length (take_while p m) <= List.length m)%nat.
Proof.
  induction m as [|c m IH]; simpl; [lia|]. destruct (p c); simpl; lia.
Qed.

Lemma firstn_take_while (p : code_unit -> bool) (m : jsstring) :
  firstn (List.length (take_while p m)) m = take_while p m.
Proof.
  induction m as [|c m IH]; simpl; [reflexivity|].
  destruct (p c); simpl; [now rewrite IH|reflexivity].
Qed.

Lemma take_while_idempotent (p : code_unit -> bool) (m : jsstring) :
  take_while p (take_while p m) = take_while p m.
Proof.
  induction m as [|c m IH]; simpl; [reflexivity|].
  destruct (p c) eqn:E; simpl; [now rewrite E, IH|reflexivity].
Qed.

Lemma take_while_app_stop (p : code_unit -> bool) (a : jsstring) (c : code_unit)
    (b : jsstring) :
  forallb p a = true -> p c = false -> take_while p (a ++ c :: b) = a.
Proof.
  intros Ha Hc. induction a as [|x a IH]; simpl in *.
  - now rewrite Hc.
  - apply andb_true_iff in Ha as [Hx Ha]. now rewrite Hx, IH.
Qed.

Lemma take_while_all (p : code_unit -> bool) (a : jsstring) :
  forallb p a = true -> take_while p a = a.
Proof.
  induction a as [|x a IH]; simpl; [reflexivity|].
  intros H. apply andb_true_iff in H as [Hx Ha]. now rewrite Hx, IH.
Qed.

Lemma prefixes_printable :
  Forall printable (js "https:") /\ Forall printable (js "http:")
  /\ Forall printable (js "www.").
Proof. repeat split; repeat constructor; unfold printable; simpl; lia. Qed.

Lemma prefixes_ascii :
  Forall (fun c => c < 128) (js "https:") /\ Forall (fun c => c < 128) (js "http:")
  /\ Forall (fun c => c < 128) (js "www.").
Proof. repeat split; repeat constructor; simpl; lia. Qed.

(** At index 0 the pattern matches exactly the messages that begin with
    one of the prefixes, up to the end of the leading token. *)
Lemma match_at_start (m : jsstring) :
  rmatch true url_pattern (0%nat, m) (fun y => Some (fst y))
  = if begins_with_url_prefix m
    then Some (List.length (leading_token m)) else None.
Proof.
  destruct prefixes_printable as (P1 & P2 & P3).
  destruct prefixes_ascii as (A1 & A2 & A3).
  unfold url_pattern, begins_with_url_prefix.
  cbn [rmatch fst snd Nat.eqb].
  rewrite !rmatch_literal by assumption.
  cbn [rmatch snd Nat.add].
  destruct (ci_prefix (js "https:") m) eqn:E1; cbn [orb].
  { rewrite iterate_non_space by lia.
    now rewrite (ci_prefix_token_length _ _ P1 E1). }
  destruct (ci_prefix (js "http:") m) eqn:E2; cbn [orb].
  { rewrite iterate_non_space by lia.
    now rewrite (ci_prefix_token_length _ _ P2 E2). }
  destruct (ci_prefix (js "www.") m) eqn:E3; [|reflexivity].
  rewrite iterate_non_space by lia.
  now rewrite (ci_prefix_token_length _ _ P3 E3).
Qed.

(** The anchor [^] fails at every other index. *)
Lemma search_after_start (m : jsstring) (i : nat) :
  i <> 0%nat -> search true url_pattern i m = None.
Proof.
  revert i. induction m as [|c m IH]; intros i Hi.
  - destruct i; [contradiction|reflexivity].
  - destruct i; [contradiction|].
    cbn [search url_pattern rmatch fst Nat.eqb]. now apply IH.
Qed.

Lemma begins_with_token_nonempty (m : jsstring) :
  begins_with_url_prefix m = true -> is_empty (leading_token m) = false.
Proof.
  unfold begins_with_url_prefix. intros H.
  destruct prefixes_printable as (P1 & P2 & P3).
  apply orb_true_iff in H as [H|H]; [apply orb_true_iff in H as [H|H]|].
  - rewrite (ci_prefix_token _ _ P1 H). destruct m; [discriminate|reflexivity].
  - rewrite (ci_prefix_token _ _ P2 H). destruct m; [discriminate|reflexivity].
  - rewrite (ci_prefix_token _ _ P3 H). destruct m; [discriminate|reflexivity].
Qed.

Lemma exec_at_start (m : jsstring) :
  RegExpExec (set_lastIndex (new_RegExp expression) 0) m
  = if begins_with_url_prefix m
    then (Some (0%nat, List.length (leading_token m)),
          set_lastIndex (new_RegExp expression) (List.length (leading_token m)))
    else (None, set_lastIndex (new_RegExp expression) 0).
Proof.
  unfold RegExpExec.
  cbn [set_lastIndex new_RegExp expression lastIndex source flag_global
       flag_ignoreCase skipn Nat.ltb Nat.leb].
  destruct m as [|c m'] eqn:Em; [reflexivity|]. rewrite <- Em.
  replace (search true url_pattern 0 m)
    with (if begins_with_url_prefix m
          then Some (0%nat, List.length (leading_token m)) else None).
  { now destruct (begins_with_url_prefix m). }
  rewrite Em. cbn [search]. rewrite <- Em, match_at_start.
  destruct (begins_with_url_prefix m); [reflexivity|].
  symmetry. apply search_after_start. discriminate.
Qed.

Lemma exec_after_start (m : jsstring) (i : nat) :
  i <> 0%nat ->
  fst (RegExpExec (set_lastIndex (new_RegExp expression) i) m) = None.
Proof.
  intros Hi. unfold RegExpExec.
  cbn [set_lastIndex new_RegExp expression lastIndex source flag_global
       flag_ignoreCase].
  destruct (Nat.ltb (List.length m) i); [reflexivity|].
  now rewrite search_after_start.
Qed.

(** What [message.match(regex)] returns. *)
Lemma match_url (m : jsstring) :
  RegExp_match (new_RegExp expression) m
  = if begins_with_url_prefix m then Some [leading_token m] else None.
Proof.
  unfold RegExp_match. cbn [match_loop]. rewrite exec_at_start.
  destruct (begins_with_url_prefix m) eqn:Eb; [|reflexivity].
  pose proof (begins_with_token_nonempty m Eb) as Hne.
  unfold substring. rewrite Nat.sub_0_r. cbn [skipn].
  unfold leading_token in *. rewrite firstn_take_while, Hne.
  match goal with
  | |- context [RegExpExec ?rx m] =>
      pose proof (exec_after_start m (lastIndex rx)) as Hx;
      cbn [lastIndex set_lastIndex] in Hx;
      destruct (RegExpExec rx m) as [o rx']
  end.
  cbn [fst] in Hx. rewrite Hx; [reflexivity|].
  destruct (take_while (fun c => negb (is_white_space c)) m); discriminate.
Qed.

(** ** The extractor *)

Lemma extractor_on_string (m : jsstring) :
  parseCustomTicketFields (Some (JStr m))
  = Ok (if begins_with_url_prefix m
        then Some (link_update (leading_token m)) else None).
Proof.
  unfold parseCustomTicketFields, String_match. cbn [rbind].
  rewrite match_url. now destruct (begins_with_url_prefix m).
Qed.

Lemma stringify_not_empty (props : list (jsstring * option jsstring)) :
  is_empty (JSON_stringify props) = false.
Proof. reflexivity. Qed.

Lemma extractor_never_empty (message : option value) (fields : jsstring) :
  parseCustomTicketFields message = Ok (Some fields) -> is_empty fields = false.
Proof.
  unfold parseCustomTicketFields.
  destruct (String_match message (new_RegExp expression)) as [[[|u us]|]|];
    cbn [rbind]; intros H; inversion H. reflexivity.
Qed.

(** ** The decoder: every named field is a string *)

Lemma jseqb_eq (a b : jsstring) : jseqb a b = true -> a = b.
Proof.
  revert b. induction a as [|x a IH]; intros [|y b] H; try discriminate.
  - reflexivity.
  - simpl in H. apply andb_true_iff in H as [H1 H2].
    apply N.eqb_eq in H1. f_equal; auto.
Qed.

Lemma jseqb_refl (a : jsstring) : jseqb a a = true.
Proof. induction a; simpl; [reflexivity|]. now rewrite N.eqb_refl. Qed.

Lemma reviver_named (k : jsstring) (v y : value) :
  is_empty k = false -> reviver k v = Ok y -> exists s, y = JStr s.
Proof.
  unfold reviver. intros ->.
  destruct (decodeURIComponent v); cbn [rbind]; intros H; inversion H; eauto.
Qed.

Lemma internalize_named (k : jsstring) (v y : value) :
  is_empty k = false -> internalize k v = Ok y -> exists s, y = JStr s.
Proof.
  intros Hk. destruct v; cbn [internalize]; try apply (reviver_named k _ y Hk).
  - destruct (sequence _); cbn [rbind]; [apply (reviver_named k _ y Hk)|discriminate].
  - destruct (in_visit_order _); cbn [rbind];
      [apply (reviver_named k _ y Hk)|discriminate].
Qed.

Lemma sequence_walked (members : list (jsstring * value))
    (members' : list (jsstring * value)) :
  sequence (List.map (fun p => (x <- snd p ;; Ok (fst p, x))%result)
              (List.map (fun p => (fst p, internalize (fst p) (snd p))) members))
  = Ok members' ->
  named_strings members'.
Proof.
  revert members'. induction members as [|[k v] ms IH]; intros members' H.
  - inversion H. constructor.
  - cbn [List.map sequence fst snd] in H.
    destruct (internalize k v) as [y|] eqn:Ey; cbn [rbind] in H; [|discriminate].
    destruct (sequence _) as [rest|] eqn:Er; cbn [rbind] in H; [|discriminate].
    inversion H; subst. constructor; [|now apply IH].
    cbn [fst snd]. intros Hk. eapply internalize_named; eassumption.
Qed.

Lemma named_strings_get (members : list (jsstring * value)) (k : jsstring)
    (x : value) :
  named_strings members -> is_empty k = false -> obj_get members k = Some x ->
  exists s, x = JStr s.
Proof.
  intros Hall Hk. induction Hall as [|[k' v'] ms Hq Hms IH]; [discriminate|].
  cbn [obj_get]. destruct (jseqb k' k) eqn:E.
  - intros H; inversion H; subst. apply jseqb_eq in E. subst.
    now apply Hq.
  - assumption.
Qed.

Lemma decoded_fields_are_strings (event : APIGatewayProxyEvent) (b : value)
    (k : jsstring) (x : value) :
  decode_body event = Ok b -> is_empty k = false ->
  get_property b k = Ok (Some x) -> exists s, x = JStr s.
Proof.
  unfold decode_body, JSON_parse. intros H Hk.
  destruct (parse_text _) as [unfiltered|]; cbn [rbind] in H; [|discriminate].
  destruct unfiltered; cbn [internalize reviver is_empty] in H;
    try (inversion H; subst; cbn [get_property]; discriminate).
  - destruct (sequence _); cbn [rbind] in H; [|discriminate].
    inversion H; subst. cbn [get_property]. discriminate.
  - unfold in_visit_order in H.
    destruct (sequence (own_property_order _)); cbn [rbind] in H; [|discriminate].
    destruct (sequence _) as [members'|] eqn:Es; cbn [rbind] in H; [|discriminate].
    inversion H; subst. cbn [get_property]. intros Hget. inversion Hget.
    eapply named_strings_get; [eapply sequence_walked| |]; eassumption.
Qed.

(** The ticket id the handler reads is a string or [undefined], so the
    template literals never fail on it. *)
Lemma extraction_ticket (event : APIGatewayProxyEvent) (ticketId : option value)
    (fields : option jsstring) :
  extraction event = Ok (ticketId, fields) ->
  ticketId = None \/ exists s, ticketId = Some (JStr s).
Proof.
  unfold extraction. intros H.
  destruct (decode_body event) as [b|] eqn:Eb; cbn [rbind] in H; [|discriminate].
  destruct (get_property b (js "message")); cbn [rbind] in H; [|discriminate].
  destruct (get_property b (js "ticket_id")) as [[x|]|] eqn:Et;
    cbn [rbind] in H; try discriminate.
  - destruct (parseCustomTicketFields _); cbn [rbind] in H; [|discriminate].
    inversion H; subst. right.
    destruct (decoded_fields_are_strings event b (js "ticket_id") x Eb eq_refl Et)
      as [s ->]. eauto.
  - destruct (parseCustomTicketFields _); cbn [rbind] in H; [|discriminate].
    inversion H; subst. now left.
Qed.

Lemma extraction_template (event : APIGatewayProxyEvent) (ticketId : option value)
    (fields : option jsstring) :
  extraction event = Ok (ticketId, fields) ->
  exists id, template ticketId = Ok id.
Proof.
  intros H. destruct (extraction_ticket _ _ _ H) as [->|[s ->]]; simpl; eauto.
Qed.

(** ** The handler, case by case *)

Lemma handler_failure (event : APIGatewayProxyEvent) (w : World) (e : exn) :
  extraction event = Throw e ->
  lambdaHandler event w = (Ok (failure_response e), logged w (js "Error") e).
Proof.
  unfold extraction, lambdaHandler, try_catch, bind, lift. intros H.
  destruct (decode_body event) as [b|]; cbn [rbind] in H;
    [|inversion H; reflexivity].
  destruct (get_property b (js "message")) as [message|]; cbn [rbind] in H;
    [|inversion H; reflexivity].
  destruct (get_property b (js "ticket_id")) as [ticketId|]; cbn [rbind] in H;
    [|inversion H; reflexivity].
  destruct (parseCustomTicketFields message); cbn [rbind] in H;
    [discriminate|inversion H; reflexivity].
Qed.

Lemma handler_without_update (event : APIGatewayProxyEvent) (w : World)
    (ticketId : option value) (id : jsstring) :
  extraction event = Ok (ticketId, None) -> template ticketId = Ok id ->
  lambdaHandler event w = (Ok (success_response id), w).
Proof.
  unfold extraction, lambdaHandler, try_catch, bind, lift. intros H Hid.
  destruct (decode_body event) as [b|]; cbn [rbind] in H; [|discriminate].
  destruct (get_property b (js "message")) as [message|]; cbn [rbind] in H;
    [|discriminate].
  destruct (get_property b (js "ticket_id")) as [t|]; cbn [rbind] in H;
    [|discriminate].
  destruct (parseCustomTicketFields message); cbn [rbind] in H; [|discriminate].
  inversion H; subst. unfold ret. now rewrite Hid.
Qed.

Lemma handler_with_update (event : APIGatewayProxyEvent) (w : World)
    (ticketId : option value) (id fields : jsstring) :
  extraction event = Ok (ticketId, Some fields) -> template ticketId = Ok id ->
  lambdaHandler event w = (Ok (success_response id), notified w id fields).
Proof.
  unfold extraction, lambdaHandler, try_catch, bind, lift. intros H Hid.
  destruct (decode_body event) as [b|]; cbn [rbind] in H; [|discriminate].
  destruct (get_property b (js "message")) as [message|]; cbn [rbind] in H;
    [|discriminate].
  destruct (get_property b (js "ticket_id")) as [t|]; cbn [rbind] in H;
    [|discriminate].
  destruct (parseCustomTicketFields message) as [f|] eqn:Ef; cbn [rbind] in H;
    [|discriminate].
  inversion H; subst.
  rewrite (extractor_never_empty _ _ Ef).
  unfold sendToTrengo, try_catch, bind, lift, fetch, notified, trengo_request,
    log_error, logged, ret.
  rewrite Hid. cbn [List.map].
  change (List.map ascii_upper (js "post")) with (js "POST").
  destruct (network _); reflexivity.
Qed.

(** Whatever the network does, the response is the one the event
    decides. *)
Lemma handler_response (event : APIGatewayProxyEvent) (w : World) :
  fst (lambdaHandler event w) = Ok (response_of event).
Proof.
  unfold response_of.
  destruct (extraction event) as [[ticketId [fields|]]|e] eqn:E.
  - destruct (extraction_template _ _ _ E) as [id Hid].
    rewrite (handler_with_update _ w _ _ _ E Hid). cbn [rbind fst].
    now rewrite Hid.
  - destruct (extraction_template _ _ _ E) as [id Hid].
    rewrite (handler_without_update _ w _ _ E Hid). cbn [rbind fst].
    now rewrite Hid.
  - now rewrite (handler_failure _ w _ E).
Qed.

(** ** The decoder on a body of plain pairs *)

Lemma plain_char_facts (c : code_unit) :
  plain_char c = true ->
  (c =? DQUOTE) = false /\ (c =? BACKSLASH) = false /\ (c <? 32) = false
  /\ (c =? AMPERSAND) = false /\ (c =? EQUALS) = false.
Proof.
  unfold plain_char. intros H.
  repeat (apply andb_true_iff in H as [H ?]).
  repeat match goal with
         | H : negb _ = true |- _ => apply negb_true_iff in H
         end.
  apply N.leb_le in H. repeat split; try assumption.
  apply N.ltb_ge. assumption.
Qed.

Lemma substituted_app (a b : jsstring) :
  substituted (a ++ b) = substituted a ++ substituted b.
Proof. unfold substituted, replace_all. now rewrite !flat_map_app. Qed.

Lemma substituted_plain (s : jsstring) : plain s = true -> substituted s = s.
Proof.
  induction s as [|c s IH]; [reflexivity|]. intros H. simpl in H.
  apply andb_true_iff in H as [Hc Hs].
  destruct (plain_char_facts c Hc) as (_ & _ & _ & Ha & He).
  change (c :: s) with ([c] ++ s). rewrite substituted_app, IH by assumption.
  unfold substituted, replace_all. cbn [flat_map]. rewrite Ha.
  cbn [flat_map app]. now rewrite He.
Qed.

Lemma join_cons2 {A} (sep x y : list A) (l : list (list A)) :
  join sep (x :: y :: l) = x ++ sep ++ join sep (y :: l).
Proof. reflexivity. Qed.

Lemma substituted_form_body (pairs : list (jsstring * jsstring)) :
  Forall plain_pair pairs ->
  substituted (form_body pairs)
  = join ([DQUOTE] ++ js "," ++ [DQUOTE]) (List.map pair_text pairs).
Proof.
  unfold form_body.
  induction 1 as [|[k v] ps [Hk Hv] Hps IH]; [reflexivity|].
  cbn [fst snd] in Hk, Hv.
  assert (Hp : substituted (k ++ [EQUALS] ++ v) = pair_text (k, v)).
  { rewrite !substituted_app, (substituted_plain k Hk), (substituted_plain v Hv).
    reflexivity. }
  destruct ps as [|q ps].
  - exact Hp.
  - cbn [List.map] in *. rewrite !join_cons2. cbn [fst snd].
    rewrite (substituted_app (k ++ [EQUALS] ++ v)), (substituted_app [AMPERSAND]),
      Hp, IH.
    reflexivity.
Qed.

Lemma lex_run_app (a b : jsstring) (st : lex_state) :
  lex_run st (a ++ b)
  = match lex_run st a with
    | Some (toks, st') =>
        match lex_run st' b with
        | Some (more, st'') => Some (toks ++ more, st'')
        | None => None
        end
    | None => None
    end.
Proof.
  revert st. induction a as [|c a IH]; intros st.
  - simpl. destruct (lex_run st b) as [[? ?]|]; reflexivity.
  - simpl. destruct (lex_step st c) as [[toks st']|]; [|reflexivity].
    rewrite IH. destruct (lex_run st' a) as [[t1 s1]|]; [|reflexivity].
    destruct (lex_run s1 b) as [[t2 s2]|]; [|reflexivity].
    now rewrite app_assoc.
Qed.

Lemma lex_app (a b : jsstring) (st : lex_state) :
  lex st (a ++ b)
  = match lex_run st a with
    | Some (toks, st') =>
        match lex st' b with
        | Some more => Some (toks ++ more)
        | None => None
        end
    | None => None
    end.
Proof.
  revert st. induction a as [|c a IH]; intros st.
  - simpl. destruct (lex st b); reflexivity.
  - simpl. destruct (lex_step st c) as [[toks st']|]; [|reflexivity].
    rewrite IH. destruct (lex_run st' a) as [[t1 s1]|]; [|reflexivity].
    destruct (lex s1 b); [|reflexivity]. now rewrite app_assoc.
Qed.

Lemma lex_run_plain_string (s acc : jsstring) :
  plain s = true ->
  lex_run (LString acc) (s ++ [DQUOTE]) = Some ([TStr (rev acc ++ s)], LDefault).
Proof.
  revert acc. induction s as [|c s IH]; intros acc H.
  - simpl. now rewrite app_nil_r.
  - simpl in H. apply andb_true_iff in H as [Hc Hs].
    destruct (plain_char_facts c Hc) as (Hq & Hb & Hl & _ & _).
    cbn [app lex_run lex_step]. rewrite Hq, Hb, Hl, (IH _ Hs).
    cbn [rev app]. now rewrite <- app_assoc.
Qed.

Lemma lex_run_pair (k v : jsstring) :
  plain k = true -> plain v = true ->
  lex_run (LString []) (pair_text (k, v) ++ [DQUOTE])
  = Some ([TStr k; TColon; TStr v], LDefault).
Proof.
  intros Hk Hv. unfold pair_text. cbn [fst snd].
  replace ((k ++ [DQUOTE] ++ js ":" ++ [DQUOTE] ++ v) ++ [DQUOTE])
    with ((k ++ [DQUOTE]) ++ (js ":" ++ [DQUOTE]) ++ (v ++ [DQUOTE]))
    by (now rewrite <- !app_assoc).
  rewrite lex_run_app, (lex_run_plain_string k [] Hk).
  rewrite lex_run_app.
  change (lex_run LDefault (js ":" ++ [DQUOTE]))
    with (Some ([TColon], LString [])).
  cbv iota beta.
  rewrite (lex_run_plain_string v [] Hv). reflexivity.
Qed.

Lemma lex_run_members (pairs : list (jsstring * jsstring)) :
  pairs <> [] -> Forall plain_pair pairs ->
  lex_run (LString [])
    (join ([DQUOTE] ++ js "," ++ [DQUOTE]) (List.map pair_text pairs) ++ [DQUOTE])
  = Some (member_tokens pairs, LDefault).
Proof.
  intros Hne Hall. induction Hall as [|[k v] ps [Hk Hv] Hps IH]; [contradiction|].
  cbn [fst snd] in Hk, Hv.
  destruct ps as [|q ps].
  - cbn [List.map join]. now apply lex_run_pair.
  - unfold member_tokens in *. cbn [List.map] in *.
    rewrite join_cons2, (join_cons2 [TComma]).
    replace ((pair_text (k, v) ++ ([DQUOTE] ++ js "," ++ [DQUOTE])
              ++ join ([DQUOTE] ++ js "," ++ [DQUOTE])
                   (pair_text q :: List.map pair_text ps)) ++ [DQUOTE])
      with ((pair_text (k, v) ++ [DQUOTE]) ++ (js "," ++ [DQUOTE])
            ++ (join ([DQUOTE] ++ js "," ++ [DQUOTE])
                  (pair_text q :: List.map pair_text ps) ++ [DQUOTE]))
      by (now rewrite <- !app_assoc).
    rewrite lex_run_app, (lex_run_pair k v Hk Hv), lex_run_app.
    change (lex_run LDefault (js "," ++ [DQUOTE]))
      with (Some ([TComma], LString [])).
    cbv iota beta.
    rewrite IH by discriminate. reflexivity.
Qed.

Lemma parse_tokens_app (a b : list token) (st : parse_state) :
  parse_tokens st (a ++ b)
  = match parse_tokens st a with
    | Some st' => parse_tokens st' b
    | None => None
    end.
Proof.
  revert st. induction a as [|t a IH]; intros st; [reflexivity|].
  simpl. destruct (parse_step st t); [apply IH|reflexivity].
Qed.

Lemma parse_members (pairs : list (jsstring * jsstring))
    (members : list (jsstring * value)) :
  pairs <> [] ->
  parse_tokens (SObjKey members []) (member_tokens pairs)
  = Some (SObjAfter (set_pairs members pairs) []).
Proof.
  revert members. induction pairs as [|[k v] ps IH]; intros members Hne;
    [contradiction|].
  destruct ps as [|q ps].
  - reflexivity.
  - unfold member_tokens in *. cbn [List.map] in *. rewrite join_cons2.
    cbn [app parse_tokens parse_step value_start complete fst snd].
    rewrite IH by discriminate. reflexivity.
Qed.

(** The JSON text of a body of plain pairs denotes the object they
    build. *)
Lemma parse_text_form_body (pairs : list (jsstring * jsstring)) :
  pairs <> [] -> Forall plain_pair pairs ->
  parse_text (js "{" ++ [DQUOTE] ++ substituted (form_body pairs)
              ++ [DQUOTE] ++ js "}")
  = Ok (JObj (set_pairs [] pairs)).
Proof.
  intros Hne Hall. unfold parse_text.
  rewrite substituted_form_body by assumption.
  replace (js "{" ++ [DQUOTE]
           ++ join ([DQUOTE] ++ js "," ++ [DQUOTE]) (List.map pair_text pairs)
           ++ [DQUOTE] ++ js "}")
    with ((js "{" ++ [DQUOTE])
          ++ (join ([DQUOTE] ++ js "," ++ [DQUOTE]) (List.map pair_text pairs)
              ++ [DQUOTE]) ++ js "}")
    by (now rewrite <- !app_assoc).
  rewrite lex_app.
  change (lex_run LDefault (js "{" ++ [DQUOTE]))
    with (Some ([TLBrace], LString [])).
  cbv iota beta.
  rewrite lex_app, lex_run_members by assumption.
  change (lex LDefault (js "}")) with (Some [TRBrace]).
  cbn [app].
  change (TLBrace :: member_tokens pairs ++ [TRBrace])
    with ([TLBrace] ++ member_tokens pairs ++ [TRBrace]).
  cbn [app parse_tokens parse_step value_start].
  destruct pairs as [|[k v] ps]; [contradiction|].
  assert (Hfirst : forall rest,
             parse_tokens (SObjFirst []) (member_tokens ((k, v) :: ps) ++ rest)
             = parse_tokens (SObjKey [] []) (member_tokens ((k, v) :: ps) ++ rest)).
  { intros rest. unfold member_tokens. destruct ps; reflexivity. }
  rewrite Hfirst, parse_tokens_app, parse_members by discriminate.
  reflexivity.
Qed.

Lemma obj_get_set (members : list (jsstring * value)) (k' k : jsstring)
    (v : value) :
  obj_get (obj_set members k' v) k
  = if jseqb k' k then Some v else obj_get members k.
Proof.
  induction members as [|[k2 v2] ms IH]; cbn [obj_set obj_get].
  - reflexivity.
  - destruct (jseqb k2 k') eqn:E2; cbn [obj_get].
    + apply jseqb_eq in E2. subst k2. now destruct (jseqb k' k).
    + rewrite IH. destruct (jseqb k2 k) eqn:E, (jseqb k' k) eqn:E'; try reflexivity.
      apply jseqb_eq in E, E'. subst. now rewrite jseqb_refl in E2.
Qed.

Lemma set_pairs_get (pairs : list (jsstring * jsstring))
    (members : list (jsstring * value)) (k : jsstring) :
  obj_get (set_pairs members pairs) k
  = match last_value pairs k with
    | Some v => Some (JStr v)
    | None => obj_get members k
    end.
Proof.
  revert members. induction pairs as [|[k' v] ps IH]; intros members.
  - reflexivity.
  - unfold set_pairs in *. cbn [fold_left last_value fst snd].
    rewrite IH, obj_get_set.
    destruct (last_value ps k); [reflexivity|]. now destruct (jseqb k' k).
Qed.

Lemma obj_set_values (Q : value -> Prop) (members : list (jsstring * value))
    (k : jsstring) (v : value) :
  Forall (fun m => Q (snd m)) members -> Q v ->
  Forall (fun m => Q (snd m)) (obj_set members k v).
Proof.
  intros Hall Hv. induction Hall as [|[k2 v2] ms H2 Hms IH]; cbn [obj_set].
  - now repeat constructor.
  - destruct (jseqb k2 k); constructor; assumption.
Qed.

Lemma set_pairs_values (Q : value -> Prop) (pairs : list (jsstring * jsstring))
    (members : list (jsstring * value)) :
  Forall (fun m => Q (snd m)) members ->
  Forall (fun p => Q (JStr (snd p))) pairs ->
  Forall (fun m => Q (snd m)) (set_pairs members pairs).
Proof.
  intros Hm Hp. revert members Hm.
  induction Hp as [|[k v] ps Hv Hps IH]; intros members Hm; [assumption|].
  unfold set_pairs in *. cbn [fold_left]. apply IH.
  now apply obj_set_values.
Qed.

Lemma insert_by_index_in {A} (n : N) (x y : A) (l : list (N * A)) :
  In y (List.map snd (insert_by_index n x l)) -> y = x \/ In y (List.map snd l).
Proof.
  induction l as [|[m z] l IH]; cbn [insert_by_index List.map snd In].
  - intros [H|[]]; now left.
  - destruct (n <? m); cbn [List.map snd In].
    + intros [H|H]; [now left|now right].
    + intros [H|H]; [right; now left|].
      destruct (IH H) as [?|?]; [now left|right; now right].
Qed.

Lemma own_property_order_in {A} (members : list (jsstring * A)) (y : A) :
  In y (own_property_order members) -> In y (List.map snd members).
Proof.
  unfold own_property_order. rewrite in_app_iff. intros [H|H].
  - induction members as [|p ms IH]; [contradiction|].
    cbn [fold_right] in H. destruct (array_index (fst p)).
    + apply insert_by_index_in in H as [->|H]; [now left|right; auto].
    + right; auto.
  - apply in_map_iff in H as (q & <- & Hq).
    apply filter_In in Hq as [Hq _]. now apply in_map.
Qed.

Lemma sequence_all_ok {A} (l : list (Result A)) :
  (forall r, In r l -> exists a, r = Ok a) -> exists l', sequence l = Ok l'.
Proof.
  induction l as [|r l IH]; intros H; [now exists []|].
  destruct (H r (or_introl eq_refl)) as [a ->].
  destruct IH as [l' Hl']; [intros; apply H; now right|].
  exists (a :: l'). cbn [sequence rbind]. now rewrite Hl'.
Qed.

(** The walk over an object whose members all survive the reviver. *)
Lemma walk_members (members : list (jsstring * value)) :
  Forall (fun m => exists y, internalize (fst m) (snd m) = Ok y) members ->
  exists members',
    internalize [] (JObj members) = Ok (JObj members')
    /\ forall k x, obj_get members k = Some x ->
         exists y, internalize k x = Ok y /\ obj_get members' k = Some y.
Proof.
  intros Hall. cbn [internalize]. unfold in_visit_order.
  destruct (sequence_all_ok
              (own_property_order
                 (List.map (fun p => (fst p, internalize (fst p) (snd p))) members)))
    as [visited Hv].
  { intros r Hr. apply own_property_order_in in Hr.
    rewrite map_map in Hr. cbn [snd] in Hr.
    apply in_map_iff in Hr as (m & <- & Hm).
    rewrite Forall_forall in Hall. exact (Hall m Hm). }
  rewrite Hv. cbn [rbind]. clear Hv visited.
  induction Hall as [|[k0 x0] ms [y0 Hy0] Hms IH].
  - exists []. split; [reflexivity|]. discriminate.
  - destruct IH as (ms' & Hms' & Hget).
    cbn [fst snd] in Hy0. cbn [List.map sequence fst snd]. rewrite Hy0.
    cbn [rbind].
    destruct (sequence _) as [rest|]; cbn [rbind reviver is_empty] in Hms';
      [|discriminate].
    inversion Hms'; subst rest.
    exists ((k0, y0) :: ms'). split; [reflexivity|].
    intros k x. cbn [obj_get]. destruct (jseqb k0 k) eqn:E.
    + apply jseqb_eq in E. subst k0. intros H; inversion H; subst. eauto.
    + apply Hget.
Qed.

(** A body of plain pairs decodes, and each named field is the
    percent-decoded text of the value given last for its key. *)
Lemma decode_form_body (pairs : list (jsstring * jsstring)) :
  pairs <> [] -> Forall plain_pair pairs ->
  Forall (fun p => exists d, Decode (snd p) = Ok d) pairs ->
  exists members,
    decode_body {| body := Some (form_body pairs) |} = Ok (JObj members)
    /\ forall k v, is_empty k = false -> last_value pairs k = Some v ->
         exists d, Decode v = Ok d /\ obj_get members k = Some (JStr d).
Proof.
  intros Hne Hplain Hdec.
  unfold decode_body, JSON_parse. cbn [body option_map concat_operand].
  change (replace_all EQUALS ([DQUOTE] ++ js ":" ++ [DQUOTE])
            (replace_all AMPERSAND ([DQUOTE] ++ js "," ++ [DQUOTE])
               (form_body pairs)))
    with (substituted (form_body pairs)).
  rewrite parse_text_form_body by assumption. cbn [rbind].
  destruct (walk_members (set_pairs [] pairs)) as (members & Hm & Hget).
  { assert (H0 : Forall (fun m => forall k, exists y, internalize k (snd m) = Ok y)
                   (set_pairs [] pairs)).
    { apply (set_pairs_values
               (fun x => forall k, exists y, internalize k x = Ok y));
        [constructor|].
      rewrite Forall_forall in *. intros p Hp k.
      destruct (Hdec p Hp) as [d Hd]. cbn [internalize].
      unfold reviver, decodeURIComponent. cbn [ToString rbind]. rewrite Hd.
      destruct (is_empty k); cbn [rbind]; eauto. }
    rewrite Forall_forall in *. intros m Hm. apply (H0 m Hm). }
  exists members. split; [assumption|].
  intros k v Hk Hlast.
  destruct (Hget k (JStr v)) as (y & Hy & Hgy).
  { rewrite set_pairs_get, Hlast. reflexivity. }
  cbn [internalize] in Hy. unfold reviver, decodeURIComponent in Hy.
  rewrite Hk in Hy. cbn [ToString rbind] in Hy.
  destruct (Decode v) as [d|]; cbn [rbind] in Hy; [|discriminate].
  inversion Hy; subst. eauto.
Qed.

(** ** The claims about the extractor *)

(** C2: for every message string the extractor returns an update exactly
    when the message begins, letters compared without regard to case, with
    [https:], [http:] or [www.]; the value of the update is then the
    longest leading run of characters other than white space; a message
    without such a prefix yields no update and no error.  A message that
    begins with [www.] is recognised like the other two. *)
Theorem C2_extractor_recognises_leading_url (m : jsstring) :
  parseCustomTicketFields (Some (JStr m))
  = Ok (if begins_with_url_prefix m
        then Some (JSON_stringify
                     [(js "custom_field_id", TRENGO_LINK_FIELD_ID);
                      (js "value", Some (leading_token m))])
        else None)
  /\ parseCustomTicketFields (Some (JStr (js "www." ++ m)))
     = Ok (Some (JSON_stringify
                   [(js "custom_field_id", TRENGO_LINK_FIELD_ID);
                    (js "value", Some (js "www." ++ leading_token m))])).
Proof.
  split; [apply extractor_on_string|].
  rewrite extractor_on_string.
  destruct prefixes_printable as (_ & _ & P3).
  now rewrite (leading_token_app (js "www.") m P3).
Qed.

(** C8: extraction is deterministic and yields at most one update, built
    from the first match only.  Running the extractor again gives the same
    result, also when the expression object kept a [lastIndex] from an
    earlier run; the array of matches never has more than one entry; what
    follows the first token, other URLs included, does not change the
    result; and the extractor run on the URL it found finds that URL
    again. *)
Theorem C8_extraction_deterministic_single_match (m : jsstring) :
  (forall r1 r2,
      parseCustomTicketFields (Some (JStr m)) = r1 ->
      parseCustomTicketFields (Some (JStr m)) = r2 -> r1 = r2)
  /\ (forall i,
         RegExp_match (set_lastIndex (new_RegExp expression) i) m
         = RegExp_match (new_RegExp expression) m)
  /\ (forall urls,
         RegExp_match (new_RegExp expression) m = Some urls ->
         List.length urls = 1%nat)
  /\ (forall ws rest,
         begins_with_url_prefix m = true ->
         forallb (fun c => negb (is_white_space c)) m = true ->
         is_white_space ws = true ->
         parseCustomTicketFields (Some (JStr (m ++ ws :: rest)))
         = Ok (Some (link_update m)))
  /\ (begins_with_url_prefix m = true ->
      parseCustomTicketFields (Some (JStr (leading_token m)))
      = parseCustomTicketFields (Some (JStr m))).
Proof.
  assert (Hpre : forall a b, begins_with_url_prefix a = true ->
                             begins_with_url_prefix (a ++ b) = true).
  { unfold begins_with_url_prefix. intros a b H.
    apply orb_true_iff in H as [H|H]; [apply orb_true_iff in H as [H|H]|];
      rewrite (ci_prefix_app _ _ b H), ?orb_true_r; reflexivity. }
  repeat split.
  - intros r1 r2 <- <-. reflexivity.
  - intros urls. rewrite match_url.
    destruct (begins_with_url_prefix m); intros H; inversion H. reflexivity.
  - intros ws rest Hb Hns Hws. rewrite extractor_on_string, (Hpre _ _ Hb).
    unfold leading_token. rewrite take_while_app_stop; auto.
    now rewrite Hws.
  - intros Hb. rewrite !extractor_on_string, Hb.
    unfold leading_token. rewrite take_while_idempotent.
    fold (leading_token m).
    assert (Hb' : begins_with_url_prefix (leading_token m) = true).
    { destruct prefixes_printable as (P1 & P2 & P3).
      unfold begins_with_url_prefix in *.
      apply orb_true_iff in Hb as [Hb|Hb]; [apply orb_true_iff in Hb as [Hb|Hb]|].
      - rewrite (ci_prefix_token _ _ P1 Hb),
          (ci_prefix_app _ _ _ (ci_prefix_firstn _ _ Hb)). reflexivity.
      - rewrite (ci_prefix_token _ _ P2 Hb),
          (ci_prefix_app _ _ _ (ci_prefix_firstn _ _ Hb)), ?orb_true_r.
        reflexivity.
      - rewrite (ci_prefix_token _ _ P3 Hb),
          (ci_prefix_app _ _ _ (ci_prefix_firstn _ _ Hb)), ?orb_true_r.
        reflexivity. }
    now rewrite Hb'.
Qed.

(** ** The claims about the handler *)

Lemma response_status (event : APIGatewayProxyEvent) :
  statusCode (response_of event) = 201 \/ statusCode (response_of event) = 500.
Proof.
  unfold response_of. destruct (rbind _ _); [now left|now right].
Qed.

(** C6: for an absent body and for an empty one the handler answers 500,
    and the [message] of the answer is the text of the engine's syntax
    error, which is not empty as long as the engine's messages are not. *)
Theorem C6_absent_or_empty_body_is_500 (b : option jsstring) (w : World) :
  (forall text, error_message (SyntaxError text) <> []) ->
  b = None \/ b = Some [] ->
  exists text,
    lambdaHandler {| body := b |} w
    = (Ok {| statusCode := 500;
             response_body :=
               JSON_stringify
                 [(js "message", Some (error_message (SyntaxError text)))] |},
       logged w (js "Error") (ErrorObject (SyntaxError text)))
    /\ error_message (SyntaxError text) <> [].
Proof.
  intros Hmsg [->| ->].
  - exists (jsq "{`undefined`}"). split; [|apply Hmsg].
    apply (handler_failure {| body := None |} w
             (ErrorObject (SyntaxError (jsq "{`undefined`}")))).
    reflexivity.
  - exists (jsq "{``}"). split; [|apply Hmsg].
    apply (handler_failure {| body := Some [] |} w
             (ErrorObject (SyntaxError (jsq "{``}")))).
    reflexivity.
Qed.

(** C7: when the extractor finds nothing the handler sends no request,
    touches nothing and answers 201; it sends exactly one request when the
    extractor returns an update, and none in every other case. *)
Theorem C7_one_call_per_extraction (event : APIGatewayProxyEvent) (w : World) :
  (forall ticketId,
      extraction event = Ok (ticketId, None) ->
      exists resp,
        lambdaHandler event w = (Ok resp, w) /\ statusCode resp = 201)
  /\ (forall ticketId fields,
         extraction event = Ok (ticketId, Some fields) ->
         exists resp w' request,
           lambdaHandler event w = (Ok resp, w')
           /\ statusCode resp = 201
           /\ calls w' = calls w ++ [request])
  /\ ((forall ticketId fields, extraction event <> Ok (ticketId, Some fields)) ->
      calls (snd (lambdaHandler event w)) = calls w).
Proof.
  repeat split.
  - intros ticketId H. destruct (extraction_template _ _ _ H) as [id Hid].
    exists (success_response id). split; [|reflexivity].
    eapply handler_without_update; eassumption.
  - intros ticketId fields H. destruct (extraction_template _ _ _ H) as [id Hid].
    exists (success_response id), (notified w id fields),
      (trengo_request id fields).
    split; [eapply handler_with_update; eassumption|].
    split; [reflexivity|].
    unfold notified. destruct (network _); reflexivity.
  - intros Hno. destruct (extraction event) as [[ticketId [fields|]]|e] eqn:E.
    + now destruct (Hno ticketId fields).
    + destruct (extraction_template _ _ _ E) as [id Hid].
      now rewrite (handler_without_update _ w _ _ E Hid).
    + now rewrite (handler_failure _ w _ E).
Qed.

(** C10: a body that decodes but has no [message] makes the extractor
    raise a [TypeError]; the handler catches it, answers 500 and sends
    nothing.  In every case the handler returns a response, with status
    201 or 500. *)
Theorem C10_missing_message_is_500 (event : APIGatewayProxyEvent) (w : World) :
  (forall b,
      decode_body event = Ok b ->
      get_property b (js "message") = Ok None ->
      exists w',
        lambdaHandler event w
        = (Ok {| statusCode := 500;
                 response_body :=
                   JSON_stringify
                     [(js "message",
                       Some (error_message (TypeError PropertyOfNullish)))] |},
           w')
        /\ calls w' = calls w)
  /\ exists resp w',
       lambdaHandler event w = (Ok resp, w')
       /\ (statusCode resp = 201 \/ statusCode resp = 500).
Proof.
  split.
  - intros b Hb Hm.
    exists (logged w (js "Error") (ErrorObject (TypeError PropertyOfNullish))).
    split; [|reflexivity].
    apply (handler_failure event w (ErrorObject (TypeError PropertyOfNullish))).
    unfold extraction. rewrite Hb. cbn [rbind].
    rewrite Hm. cbn [rbind].
    destruct b; try discriminate; reflexivity.
  - pose proof (handler_response event w) as H.
    destruct (lambdaHandler event w) as [r w']. cbn [fst] in H. subst r.
    exists (response_of event), w'. split; [reflexivity|apply response_status].
Qed.

(** ** The decoder on a body whose raw text breaks the pair syntax *)

Lemma parse_text_dead_prefix (P R : jsstring) (T : list token) (st : lex_state) :
  lex_run LDefault P = Some (T, st) ->
  parse_tokens (SValue []) T = None ->
  parse_text (P ++ R) = Throw (ErrorObject (SyntaxError (P ++ R))).
Proof.
  intros HP HT. unfold parse_text. rewrite lex_app, HP.
  destruct (lex st R); [|reflexivity].
  now rewrite parse_tokens_app, HT.
Qed.

Lemma substituted_body_with (pre : list (jsstring * jsstring)) (piece : jsstring) :
  Forall plain_pair pre ->
  substituted (body_with pre piece) = lead pre ++ substituted piece.
Proof.
  unfold body_with.
  induction 1 as [|[k v] ps [Hk Hv] Hps IH]; [reflexivity|].
  cbn [fst snd] in Hk, Hv.
  assert (Hp : substituted (k ++ [EQUALS] ++ v) = pair_text (k, v)).
  { rewrite !substituted_app, (substituted_plain k Hk), (substituted_plain v Hv).
    reflexivity. }
  cbn [List.map lead flat_map]. rewrite <- app_comm_cons.
  destruct (List.map _ ps ++ [piece]) as [|x l] eqn:E.
  { destruct (List.map _ ps); discriminate. }
  rewrite join_cons2. cbn [fst snd].
  rewrite (substituted_app (k ++ [EQUALS] ++ v)), (substituted_app [AMPERSAND]),
    Hp, IH.
  change (substituted [AMPERSAND]) with ([DQUOTE] ++ js "," ++ [DQUOTE]).
  now rewrite <- !app_assoc.
Qed.

Lemma lex_run_lead (pre : list (jsstring * jsstring)) :
  Forall plain_pair pre ->
  lex_run (LString []) (lead pre) = Some (lead_tokens pre, LString []).
Proof.
  induction 1 as [|[k v] ps [Hk Hv] Hps IH]; [reflexivity|].
  cbn [fst snd] in Hk, Hv. cbn [lead lead_tokens flat_map].
  fold (lead ps). fold (lead_tokens ps).
  replace ((pair_text (k, v) ++ [DQUOTE] ++ js "," ++ [DQUOTE]) ++ lead ps)
    with ((pair_text (k, v) ++ [DQUOTE]) ++ (js "," ++ [DQUOTE]) ++ lead ps)
    by (now rewrite <- !app_assoc).
  rewrite lex_run_app, (lex_run_pair k v Hk Hv), lex_run_app.
  change (lex_run LDefault (js "," ++ [DQUOTE]))
    with (Some ([TComma], LString [])).
  cbv iota beta. rewrite IH. reflexivity.
Qed.

Lemma parse_lead (pre : list (jsstring * jsstring))
    (members : list (jsstring * value)) :
  parse_tokens (SObjKey members []) (lead_tokens pre)
  = Some (SObjKey (set_pairs members pre) []).
Proof.
  revert members. induction pre as [|[k v] ps IH]; intros members;
    [reflexivity|].
  cbn [lead_tokens flat_map app parse_tokens parse_step value_start complete
       fst snd].
  fold (lead_tokens ps). now rewrite IH.
Qed.

(** After the opening brace and the pairs of [pre], a key is due: tokens
    that no key can begin with end the parse. *)
Lemma dead_after_lead (pre : list (jsstring * jsstring)) (tail : list token) :
  (forall members, parse_tokens (SObjKey members []) tail = None) ->
  (parse_tokens (SObjFirst []) tail = None) ->
  parse_tokens (SValue []) (TLBrace :: lead_tokens pre ++ tail) = None.
Proof.
  intros Hkey Hfirst. cbn [parse_tokens parse_step value_start].
  destruct pre as [|[k v] ps]; [exact Hfirst|].
  change (parse_tokens (SObjFirst []) (lead_tokens ((k, v) :: ps) ++ tail))
    with (parse_tokens (SObjKey [] []) (lead_tokens ((k, v) :: ps) ++ tail)).
  now rewrite parse_tokens_app, parse_lead.
Qed.

Lemma decode_dead_prefix (pre : list (jsstring * jsstring))
    (piece P R : jsstring) (tail : list token) (st : lex_state) :
  Forall plain_pair pre ->
  substituted piece ++ [DQUOTE] ++ js "}" = P ++ R ->
  lex_run (LString []) P = Some (tail, st) ->
  (forall members, parse_tokens (SObjKey members []) tail = None) ->
  parse_tokens (SObjFirst []) tail = None ->
  is_syntax_error (decode_body {| body := Some (body_with pre piece) |}).
Proof.
  intros Hpre Hsplit HP Hkey Hfirst.
  unfold decode_body, JSON_parse. cbn [body option_map concat_operand].
  change (replace_all EQUALS ([DQUOTE] ++ js ":" ++ [DQUOTE])
            (replace_all AMPERSAND ([DQUOTE] ++ js "," ++ [DQUOTE])
               (body_with pre piece)))
    with (substituted (body_with pre piece)).
  rewrite substituted_body_with by assumption.
  assert (E : js "{" ++ [DQUOTE] ++ (lead pre ++ substituted piece)
               ++ [DQUOTE] ++ js "}"
               = ((js "{" ++ [DQUOTE]) ++ lead pre ++ P) ++ R).
  { rewrite <- !app_assoc, <- Hsplit. reflexivity. }
  rewrite E. clear E.
  erewrite parse_text_dead_prefix.
  - eexists. reflexivity.
  - rewrite lex_run_app.
    change (lex_run LDefault (js "{" ++ [DQUOTE]))
      with (Some ([TLBrace], LString [])).
    cbv iota beta. rewrite lex_run_app, (lex_run_lead pre Hpre), HP.
    reflexivity.
  - apply dead_after_lead; assumption.
Qed.

(** A second [=] in a pair. *)
Lemma decode_second_equals (pre : list (jsstring * jsstring))
    (k v rest : jsstring) :
  Forall plain_pair pre -> plain k = true -> plain v = true ->
  is_syntax_error
    (decode_body
       {| body := Some (body_with pre (k ++ [EQUALS] ++ v ++ [EQUALS] ++ rest)) |}).
Proof.
  intros Hpre Hk Hv.
  apply (decode_dead_prefix pre _
           ((pair_text (k, v) ++ [DQUOTE]) ++ js ":")
           ([DQUOTE] ++ substituted rest ++ [DQUOTE] ++ js "}")
           [TStr k; TColon; TStr v; TColon] LDefault Hpre).
  - rewrite !substituted_app, (substituted_plain k Hk), (substituted_plain v Hv).
    unfold pair_text. cbn [fst snd].
    change (substituted [EQUALS]) with ([DQUOTE] ++ js ":" ++ [DQUOTE]).
    now rewrite <- !app_assoc.
  - rewrite lex_run_app, (lex_run_pair k v Hk Hv). reflexivity.
  - reflexivity.
  - reflexivity.
Qed.

(** A piece without [=], at the end of the body or before a [&]. *)
Lemma decode_piece_without_equals (pre : list (jsstring * jsstring))
    (x : jsstring) :
  Forall plain_pair pre -> plain x = true ->
  is_syntax_error (decode_body {| body := Some (body_with pre x) |})
  /\ forall rest,
       is_syntax_error
         (decode_body {| body := Some (body_with pre (x ++ [AMPERSAND] ++ rest)) |}).
Proof.
  intros Hpre Hx. split; [|intros rest].
  - apply (decode_dead_prefix pre _ ((x ++ [DQUOTE]) ++ js "}") []
             [TStr x; TRBrace] LDefault Hpre).
    + rewrite (substituted_plain x Hx). now rewrite <- !app_assoc, app_nil_r.
    + rewrite lex_run_app, (lex_run_plain_string x [] Hx). reflexivity.
    + reflexivity.
    + reflexivity.
  - apply (decode_dead_prefix pre _ ((x ++ [DQUOTE]) ++ js ",")
             ([DQUOTE] ++ substituted rest ++ [DQUOTE] ++ js "}")
             [TStr x; TComma] LDefault Hpre).
    + rewrite !substituted_app, (substituted_plain x Hx).
      change (substituted [AMPERSAND]) with ([DQUOTE] ++ js "," ++ [DQUOTE]).
      now rewrite <- !app_assoc.
    + rewrite lex_run_app, (lex_run_plain_string x [] Hx). reflexivity.
    + reflexivity.
    + reflexivity.
Qed.

Lemma owed_first (R : jsstring) :
  forall (st : lex_state) (toks : list token),
    st <> LDefault -> lex st R = Some toks ->
    exists t more, toks = t :: more /\ owed st t.
Proof.
  induction R as [|c R IH]; intros st toks Hst H.
  - destruct st; cbn [lex lex_finish] in H; try discriminate;
      [contradiction|].
    destruct (valid_number (rev acc)); inversion H. cbn [owed]. eauto.
  - cbn [lex] in H.
    destruct (lex_step st c) as [[em st']|] eqn:Es; [|discriminate].
    destruct (lex st' R) as [more|] eqn:El; [|discriminate].
    inversion H; subst toks; clear H.
    assert (Hgo : forall st1, st1 <> LDefault ->
                    lex st1 R = Some more ->
                    (forall t, owed st1 t -> owed st t) ->
                    exists t more', [] ++ more = t :: more' /\ owed st t).
    { intros st1 H1 Hl Hown. destruct (IH st1 more H1 Hl) as (t & more' & -> & Ht).
      exists t, more'. split; [reflexivity|auto]. }
    destruct st; cbn [lex_step] in Es; [contradiction| | | | |].
    + destruct (c =? DQUOTE);
        [inversion Es; subst; cbn [app owed]; eauto|].
      destruct (c =? BACKSLASH);
        [inversion Es; subst; (eapply Hgo; [|exact El|]; [discriminate|auto])|].
      destruct (c <? 32); [discriminate|].
      inversion Es; subst. (eapply Hgo; [|exact El|]; [discriminate|auto]).
    + destruct (c =? 117);
        [inversion Es; subst; (eapply Hgo; [|exact El|]; [discriminate|auto])|].
      destruct (escape_unit c); [|discriminate].
      inversion Es; subst. (eapply Hgo; [|exact El|]; [discriminate|auto]).
    + destruct (hex_value c); [|discriminate].
      destruct digits as [|d1 [|d2 [|d3 [|d4 ds]]]];
        inversion Es; subst; (eapply Hgo; [|exact El|]; [discriminate|auto]).
    + destruct (number_char c);
        [inversion Es; subst; (eapply Hgo; [|exact El|]; [discriminate|auto])|].
      destruct (valid_number (rev acc)); [|discriminate].
      destruct (step_default c) as [[toks' st1]|]; [|discriminate].
      inversion Es; subst. cbn [app owed]. eauto.
    + destruct rest as [|x rest']; [discriminate|].
      destruct (c =? x); [|discriminate].
      destruct rest' as [|y rest''].
      * inversion Es; subst. cbn [app owed]. eauto.
      * inversion Es; subst. (eapply Hgo; [|exact El|]; [discriminate|auto]).
Qed.

(** After a member of an object, a character that is neither white
    space nor [,] nor [}] begins a token that cannot follow it. *)
Lemma first_token_after_member (d : code_unit) (R : jsstring)
    (toks : list token) :
  ends_member d = false -> lex LDefault (d :: R) = Some toks ->
  exists t more, toks = t :: more /\ not_a_separator t.
Proof.
  unfold ends_member. intros Hd H.
  apply orb_false_iff in Hd as [Hd H125]. apply orb_false_iff in Hd as [Hws H44].
  cbn [lex lex_step] in H. unfold step_default in H. rewrite Hws in H.
  assert (Hpend : forall st, st <> LDefault ->
            (forall t, owed st t -> not_a_separator t) ->
            match lex st R with Some more => Some ([] ++ more) | None => None end
            = Some toks ->
            exists t more, toks = t :: more /\ not_a_separator t).
  { intros st Hst Hown Hl. destruct (lex st R) as [more|] eqn:El; [|discriminate].
    inversion Hl as [Hm]. cbn [app] in Hm. subst toks.
    destruct (owed_first R st more Hst El) as (t & m' & -> & Ht).
    exists t, m'. split; [reflexivity|auto]. }
  assert (Hnow : forall t, not_a_separator t ->
            match lex LDefault R with Some more => Some ([t] ++ more) | None => None end
            = Some toks ->
            exists t more, toks = t :: more /\ not_a_separator t).
  { intros t Ht Hl. destruct (lex LDefault R) as [more|]; [|discriminate].
    inversion Hl as [Hm]. exists t, more. split; [reflexivity|assumption]. }
  destruct (d =? 123); [apply (Hnow TLBrace); [split; discriminate|exact H]|].
  rewrite H125 in H.
  destruct (d =? 91); [apply (Hnow TLBrack); [split; discriminate|exact H]|].
  destruct (d =? 93); [apply (Hnow TRBrack); [split; discriminate|exact H]|].
  destruct (d =? 58); [apply (Hnow TColon); [split; discriminate|exact H]|].
  rewrite H44 in H.
  destruct (d =? DQUOTE).
  { apply (Hpend (LString [])); [discriminate| |exact H].
    intros t [s ->]. split; discriminate. }
  destruct (is_digit d || (d =? 45)).
  { apply (Hpend (LNumber [d])); [discriminate| |exact H].
    intros t [n ->]. split; discriminate. }
  destruct (d =? 116).
  { apply (Hpend (LLiteral (js "rue") TTrue)); [discriminate| |exact H].
    intros t ->. split; discriminate. }
  destruct (d =? 102).
  { apply (Hpend (LLiteral (js "alse") TFalse)); [discriminate| |exact H].
    intros t ->. split; discriminate. }
  destruct (d =? 110); [|discriminate].
  apply (Hpend (LLiteral (js "ull") TNull)); [discriminate| |exact H].
  intros t ->. split; discriminate.
Qed.

Lemma substituted_head (c : code_unit) (rest X : jsstring) :
  ends_member c = false ->
  exists d R, substituted (c :: rest) ++ X = d :: R /\ ends_member d = false.
Proof.
  intros Hc. change (c :: rest) with ([c] ++ rest). rewrite substituted_app.
  unfold substituted at 1. unfold replace_all. cbn [flat_map].
  destruct (c =? AMPERSAND).
  { eexists _, _. split; [reflexivity|reflexivity]. }
  cbn [flat_map app].
  destruct (c =? EQUALS).
  { eexists _, _. split; [reflexivity|reflexivity]. }
  eexists _, _. split; [reflexivity|assumption].
Qed.

(** A raw double quote in a value that is followed by [R]. *)
Lemma decode_raw_quote_then (pre : list (jsstring * jsstring))
    (k v after R : jsstring) (d : code_unit) :
  Forall plain_pair pre -> plain k = true -> plain v = true ->
  substituted after ++ [DQUOTE] ++ js "}" = d :: R ->
  ends_member d = false ->
  is_syntax_error
    (decode_body
       {| body := Some (body_with pre (k ++ [EQUALS] ++ v ++ [DQUOTE] ++ after)) |}).
Proof.
  intros Hpre Hk Hv Hsplit Hd.
  unfold decode_body, JSON_parse. cbn [body option_map concat_operand].
  match goal with
  | |- context [replace_all EQUALS ?a (replace_all AMPERSAND ?b ?x)] =>
      change (replace_all EQUALS a (replace_all AMPERSAND b x))
        with (substituted x)
  end.
  rewrite substituted_body_with by assumption.
  assert (E : js "{" ++ [DQUOTE]
              ++ (lead pre
                  ++ substituted (k ++ [EQUALS] ++ v ++ [DQUOTE] ++ after))
              ++ [DQUOTE] ++ js "}"
              = ((js "{" ++ [DQUOTE]) ++ lead pre ++ (pair_text (k, v) ++ [DQUOTE]))
                ++ d :: R).
  { rewrite <- Hsplit.
    rewrite !substituted_app, (substituted_plain k Hk), (substituted_plain v Hv).
    unfold pair_text. cbn [fst snd].
    change (substituted [EQUALS]) with ([DQUOTE] ++ js ":" ++ [DQUOTE]).
    change (substituted [DQUOTE]) with [DQUOTE].
    now rewrite <- !app_assoc. }
  rewrite E. clear E. unfold parse_text. rewrite lex_app, lex_run_app.
  change (lex_run LDefault (js "{" ++ [DQUOTE]))
    with (Some ([TLBrace], LString [])).
  cbv iota beta.
  rewrite lex_run_app, (lex_run_lead pre Hpre), (lex_run_pair k v Hk Hv).
  destruct (lex LDefault (d :: R)) as [toks|] eqn:El;
    [|eexists; reflexivity].
  destruct (first_token_after_member d R toks Hd El) as (t & more & -> & Ht1 & Ht2).
  assert (Hdead : parse_tokens (SValue [])
                    (([TLBrace] ++ lead_tokens pre ++ [TStr k; TColon; TStr v])
                     ++ t :: more) = None).
  { rewrite parse_tokens_app.
    assert (Hst : exists members,
               parse_tokens (SValue [])
                 ([TLBrace] ++ lead_tokens pre ++ [TStr k; TColon; TStr v])
               = Some (SObjAfter members [])).
    { cbn [app parse_tokens parse_step value_start].
      destruct pre as [|[k1 v1] ps].
      - eexists. reflexivity.
      - change (parse_tokens (SObjFirst [])
                  (lead_tokens ((k1, v1) :: ps) ++ [TStr k; TColon; TStr v]))
          with (parse_tokens (SObjKey [] [])
                  (lead_tokens ((k1, v1) :: ps) ++ [TStr k; TColon; TStr v])).
        rewrite parse_tokens_app, parse_lead. eexists. reflexivity. }
    destruct Hst as [members ->].
    cbn [parse_tokens parse_step].
    destruct t; try reflexivity; contradiction. }
  cbv iota beta. rewrite Hdead. eexists. reflexivity.
Qed.

(** A raw double quote in a value, at its end or before a character that
    does not end a member. *)
Lemma decode_raw_quote (pre : list (jsstring * jsstring)) (k v : jsstring) :
  Forall plain_pair pre -> plain k = true -> plain v = true ->
  is_syntax_error
    (decode_body
       {| body := Some (body_with pre (k ++ [EQUALS] ++ v ++ [DQUOTE])) |})
  /\ forall c rest,
       ends_member c = false ->
       is_syntax_error
         (decode_body
            {| body := Some (body_with pre
                               (k ++ [EQUALS] ++ v ++ [DQUOTE] ++ c :: rest)) |}).
Proof.
  intros Hpre Hk Hv. split; [|intros c rest Hc].
  - apply (decode_raw_quote_then pre k v [] (js "}") DQUOTE Hpre Hk Hv);
      reflexivity.
  - destruct (substituted_head c rest ([DQUOTE] ++ js "}") Hc) as (d & R & E & Hd).
    exact (decode_raw_quote_then pre k v (c :: rest) R d Hpre Hk Hv E Hd).
Qed.

(** ** The claims about the decoder *)

(** C4: the substitutions and [JSON.parse] work on the raw body and the
    reviver percent-decodes afterwards.  So a body of plain
    [key=value] pairs whose values percent-decode is decoded without error,
    each named field being the decoded text of the value given last for
    its key, whatever characters that text contains; a double quote, [&]
    or [=] written [%22], [%26] or [%3D] is among them.  The decoder
    throws a syntax error when the raw body breaks the pair syntax after
    the pairs [pre]: by a second [=] in a pair, by a piece without [=] at
    the end of the body or before a [&], by a raw double quote at the end
    of a value or before a character other than JSON white space, [,] and
    [}]. *)
Theorem C4_percent_encoded_decodes_raw_breaks
    (pairs pre : list (jsstring * jsstring)) (k v : jsstring) :
  (pairs <> [] -> Forall plain_pair pairs ->
   Forall (fun p => exists d, Decode (snd p) = Ok d) pairs ->
   exists members,
     decode_body {| body := Some (form_body pairs) |} = Ok (JObj members)
     /\ forall key val, is_empty key = false -> last_value pairs key = Some val ->
          exists d, Decode val = Ok d /\ obj_get members key = Some (JStr d))
  /\ (Forall plain_pair pre -> plain k = true -> plain v = true ->
      (forall rest,
          is_syntax_error
            (decode_body
               {| body := Some (body_with pre
                                  (k ++ [EQUALS] ++ v ++ [EQUALS] ++ rest)) |}))
      /\ is_syntax_error (decode_body {| body := Some (body_with pre k) |})
      /\ (forall rest,
             is_syntax_error
               (decode_body
                  {| body := Some (body_with pre (k ++ [AMPERSAND] ++ rest)) |}))
      /\ is_syntax_error
           (decode_body
              {| body := Some (body_with pre (k ++ [EQUALS] ++ v ++ [DQUOTE])) |})
      /\ (forall c rest,
             ends_member c = false ->
             is_syntax_error
               (decode_body
                  {| body := Some (body_with pre
                                     (k ++ [EQUALS] ++ v ++ [DQUOTE]
                                      ++ c :: rest)) |}))).
Proof.
  split; [apply decode_form_body|].
  intros Hpre Hk Hv.
  destruct (decode_piece_without_equals pre k Hpre Hk) as [H1 H2].
  destruct (decode_raw_quote pre k v Hpre Hk Hv) as [H3 H4].
  repeat split; try assumption.
  intros rest. now apply decode_second_equals.
Qed.

(** C5: for every body of plain [key=value] pairs whose values
    percent-decode and that carries [message] and [ticket_id], the decoder
    builds a record whose [message] is a string and whose [ticket_id] is a
    string as well, the decoded text of the value, not an integer.  For
    any body at all, a field the decoder returns under a name other than
    the empty one is a string. *)
Theorem C5_decoded_fields_are_strings
    (pairs : list (jsstring * jsstring)) (m t : jsstring) :
  (pairs <> [] -> Forall plain_pair pairs ->
   Forall (fun p => exists d, Decode (snd p) = Ok d) pairs ->
   last_value pairs (js "message") = Some m ->
   last_value pairs (js "ticket_id") = Some t ->
   exists record dm dt,
     decode_body {| body := Some (form_body pairs) |} = Ok record
     /\ Decode m = Ok dm /\ Decode t = Ok dt
     /\ get_property record (js "message") = Ok (Some (JStr dm))
     /\ get_property record (js "ticket_id") = Ok (Some (JStr dt))
     /\ is_integer (JStr dt) = false)
  /\ (forall event record name x,
         decode_body event = Ok record -> is_empty name = false ->
         get_property record name = Ok (Some x) ->
         is_string x = true /\ is_integer x = false).
Proof.
  split.
  - intros Hne Hplain Hdec Hm Ht.
    destruct (decode_form_body pairs Hne Hplain Hdec) as (members & Hd & Hget).
    destruct (Hget (js "message") m eq_refl Hm) as (dm & Hdm & Hgm).
    destruct (Hget (js "ticket_id") t eq_refl Ht) as (dt & Hdt & Hgt).
    exists (JObj members), dm, dt. cbn [get_property].
    rewrite Hgm, Hgt. repeat split; assumption.
  - intros event record name x Hd Hn Hg.
    destruct (decoded_fields_are_strings event record name x Hd Hn Hg) as [s ->].
    split; reflexivity.
Qed.

End Handler.

(** ** The handler against two networks *)

Section Network.

Variable unicode_upper : code_unit -> code_unit.
Variable number_to_string : jsstring -> jsstring.
Variable error_message : js_error -> jsstring.
Variable TRENGO_TOKEN : option jsstring.
Variable TRENGO_LINK_FIELD_ID : option jsstring.

#[local] Abbreviation handler network :=
  (lambdaHandler unicode_upper number_to_string error_message
     TRENGO_TOKEN TRENGO_LINK_FIELD_ID network).

#[local] Abbreviation extracted :=
  (extraction unicode_upper number_to_string TRENGO_LINK_FIELD_ID).

(** C3: a failure of the outbound call never changes the response.  The
    response is the same against any two networks; and when the extractor
    returned an update and [fetch] rejects, the notifier logs the error
    and the handler still answers 201. *)
Theorem C3_outbound_failure_contained (event : APIGatewayProxyEvent) (w : World) :
  (forall net1 net2, fst (handler net1 event w) = fst (handler net2 event w))
  /\ (forall net ticketId fields e,
         extracted event = Ok (ticketId, Some fields) ->
         (forall r, net r = Some e) ->
         exists resp w' request,
           handler net event w = (Ok resp, w')
           /\ statusCode resp = 201
           /\ calls w' = calls w ++ [request]
           /\ logs w' = logs w ++ [{| log_text := js "Error when sending to Trengo";
                                      log_error_value := e |}]).
Proof.
  split.
  - intros net1 net2. now rewrite !handler_response.
  - intros net ticketId fields e Hx Hnet.
    destruct (extraction_template _ _ _ _ _ _ Hx) as [id Hid].
    exists (success_response id),
      (notified TRENGO_TOKEN net w id fields),
      (trengo_request TRENGO_TOKEN id fields).
    split; [|split; [reflexivity|]].
    + eapply handler_with_update; eassumption.
    + unfold notified. rewrite Hnet. split; reflexivity.
Qed.

End Network.

(** ** The request and the examples of the specification *)

Section Configured.

Variable unicode_upper : code_unit -> code_unit.
Variable number_to_string : jsstring -> jsstring.
Variable error_message : js_error -> jsstring.
Variable network : Request -> option exn.

(** The API token and the id of the link field, both set. *)
Variable token : jsstring.
Variable field_id : jsstring.

#[local] Abbreviation handler :=
  (lambdaHandler unicode_upper number_to_string error_message
     (Some token) (Some field_id) network).

#[local] Abbreviation extracted :=
  (extraction unicode_upper number_to_string (Some field_id)).

#[local] Abbreviation decoded := (decode_body number_to_string).

Lemma link_update_configured (url : jsstring) :
  link_update (Some field_id) url
  = jsq "{`custom_field_id`:" ++ QuoteJSONString field_id
    ++ jsq ",`value`:" ++ QuoteJSONString url ++ js "}".
Proof.
  unfold link_update, JSON_stringify.
  cbn [flat_map stringify_property join app].
  rewrite <- !app_assoc. reflexivity.
Qed.

(** C9: when the extractor returned the payload [P] for a message [m] and
    the body gave the ticket id [T], the one request sent is a POST to
    the custom fields of ticket [T] with the three headers and the body
    [P]; [P] is the JSON object with [custom_field_id], the configured id,
    and [value], the URL matched in [m]. *)
Theorem C9_outbound_request_shape (event : APIGatewayProxyEvent) (w : World)
    (record : value) (m T : jsstring) :
  decoded event = Ok record ->
  get_property record (js "message") = Ok (Some (JStr m)) ->
  get_property record (js "ticket_id") = Ok (Some (JStr T)) ->
  begins_with_url_prefix m = true ->
  let P := jsq "{`custom_field_id`:" ++ QuoteJSONString field_id
           ++ jsq ",`value`:" ++ QuoteJSONString (leading_token m) ++ js "}" in
  extracted event = Ok (Some (JStr T), Some P)
  /\ calls (snd (handler event w))
     = calls w
       ++ [{| req_url := js "https://app.trengo.com/api/v2/tickets/" ++ T
                         ++ js "/custom_fields";
              req_method := js "POST";
              req_headers :=
                [(js "Accept", js "application/json");
                 (js "Authorization", js "Bearer " ++ token);
                 (js "Content-Type", js "application/json")];
              req_body := P |}].
Proof.
  intros Hd Hm Ht Hb P.
  assert (Hx : extracted event = Ok (Some (JStr T), Some P)).
  { unfold extraction. rewrite Hd. cbn [rbind].
    rewrite Hm. cbn [rbind]. rewrite Ht. cbn [rbind].
    rewrite extractor_on_string, Hb. cbn [rbind].
    now rewrite link_update_configured. }
  split; [exact Hx|].
  rewrite (handler_with_update _ _ _ _ _ _ event w _ T P Hx eq_refl).
  cbn [snd]. unfold notified. destruct (network _); reflexivity.
Qed.

(** C1: the expression is anchored at the start of the message.
    For the body [message=Check https://example.com/path&ticket_id=42] the
    extractor yields no update, nothing is sent, and the handler answers
    201 with [{"message":"Ticket's 42 custom fields set"}].  For the body
    [message=https://example.com/path&ticket_id=42] the extractor yields
    the update for [https://example.com/path], the handler sends it in one
    request and gives the same answer. *)
Theorem C1_example_bodies (w : World) :
  let answer := {| statusCode := 201;
                   response_body :=
                     jsq "{`message`:`Ticket's 42 custom fields set`}" |} in
  let payload := jsq "{`custom_field_id`:" ++ QuoteJSONString field_id
                 ++ jsq ",`value`:`https://example.com/path`}" in
  let url_later :=
    {| body := Some (js "message=Check https://example.com/path&ticket_id=42") |} in
  let url_first :=
    {| body := Some (js "message=https://example.com/path&ticket_id=42") |} in
  extracted url_later = Ok (Some (JStr (js "42")), None)
  /\ handler url_later w = (Ok answer, w)
  /\ extracted url_first = Ok (Some (JStr (js "42")), Some payload)
  /\ fst (handler url_first w) = Ok answer
  /\ exists request,
       calls (snd (handler url_first w)) = calls w ++ [request]
       /\ req_body request = payload.
Proof.
  intros answer payload url_later url_first.
  assert (H1 : extracted url_later = Ok (Some (JStr (js "42")), None))
    by reflexivity.
  assert (H2 : extracted url_first = Ok (Some (JStr (js "42")), Some payload)).
  { transitivity (Ok (Some (JStr (js "42")),
                      Some (link_update (Some field_id)
                              (js "https://example.com/path"))));
      [reflexivity|].
    now rewrite link_update_configured. }
  split; [exact H1|]. split.
  { now rewrite (handler_without_update _ _ _ _ _ _ url_later w _ (js "42") H1). }
  split; [exact H2|].
  rewrite (handler_with_update _ _ _ _ _ _ url_first w _ (js "42") payload H2 eq_refl).
  split; [reflexivity|].
  eexists. cbn [snd]. unfold notified.
  destruct (network _); cbn [calls logged]; split; reflexivity.
Qed.

End Configured.

(** ** The claims at concrete inputs *)

Abbreviation sample_handler network :=
  (lambdaHandler sample_upper sample_number_to_string sample_error_message
     sample_token sample_field_id network).

Abbreviation sample_extraction :=
  (extraction sample_upper sample_number_to_string sample_field_id).

Abbreviation sample_decode := (decode_body sample_number_to_string).

Abbreviation sample_extractor :=
  (parseCustomTicketFields sample_upper sample_field_id).

(** For the body [message=Check https://example.com/path&ticket_id=42]
    the extractor returns no payload and no request is sent. *)
Lemma C1_counterexample :
  ~ (exists ticketId payload,
        sample_extraction url_later_event = Ok (ticketId, Some payload))
  /\ calls (snd (sample_handler network_up url_later_event empty_world)) = [].
Proof.
  split; [|reflexivity].
  intros (ticketId & payload & H). vm_compute in H. discriminate.
Qed.

Lemma C3_witness :
  exists resp w' request,
    sample_handler network_down url_first_event empty_world = (Ok resp, w')
    /\ statusCode resp = 201
    /\ calls w' = calls empty_world ++ [request]
    /\ logs w'
       = logs empty_world
         ++ [{| log_text := js "Error when sending to Trengo";
                log_error_value :=
                  Rejection true
                    (js "request failed, reason: connect ECONNREFUSED") |}].
Proof.
  eapply (proj2 (C3_outbound_failure_contained sample_upper
                   sample_number_to_string sample_error_message sample_token
                   sample_field_id url_first_event empty_world)
            network_down (Some (JStr (js "42")))).
  - vm_compute. reflexivity.
  - intros r. reflexivity.
Defined.

(** A decoded value may hold a double quote, [&] and [=]: the decoder
    returns a record for [message=a%22b%26c%3Dd&ticket_id=1]. *)
Lemma C4_counterexample :
  sample_decode encoded_quote_event
  = Ok (JObj [(js "message", JStr (jsq "a`b&c=d"));
              (js "ticket_id", JStr (js "1"))])
  /\ In DQUOTE (jsq "a`b&c=d") /\ In AMPERSAND (jsq "a`b&c=d")
  /\ In EQUALS (jsq "a`b&c=d")
  /\ ~ is_syntax_error (sample_decode encoded_quote_event).
Proof.
  split; [vm_compute; reflexivity|].
  repeat split; try (vm_compute; tauto).
  intros [text H]. vm_compute in H. discriminate.
Qed.

Lemma C4_witness :
  (exists members,
      sample_decode encoded_quote_event = Ok (JObj members)
      /\ forall key val,
           is_empty key = false ->
           last_value [(js "message", js "a%22b%26c%3Dd"); (js "ticket_id", js "1")]
             key = Some val ->
           exists d, Decode val = Ok d /\ obj_get members key = Some (JStr d))
  /\ is_syntax_error
       (sample_decode {| body := Some (js "message=hi&ticket_id=4=2") |})
  /\ is_syntax_error
       (sample_decode {| body := Some (js "message=hi&ticket_id") |})
  /\ is_syntax_error
       (sample_decode {| body := Some (jsq "message=hi&ticket_id=4`2") |}).
Proof.
  destruct (C4_percent_encoded_decodes_raw_breaks sample_number_to_string
              [(js "message", js "a%22b%26c%3Dd"); (js "ticket_id", js "1")]
              [(js "message", js "hi")] (js "ticket_id") (js "4"))
    as [Hok Hbad].
  split.
  - apply Hok.
    + discriminate.
    + repeat constructor.
    + repeat constructor; eexists; vm_compute; reflexivity.
  - destruct Hbad as (H1 & H2 & _ & _ & H5).
    + repeat constructor.
    + reflexivity.
    + reflexivity.
    + split; [exact (H1 (js "2"))|]. split; [exact H2|].
      exact (H5 50 [] eq_refl).
Defined.

(** The ticket id the decoder returns for [ticket_id=42] is the string
    [42], not an integer. *)
Lemma C5_counterexample :
  ~ (exists record t,
        sample_decode plain_event = Ok record
        /\ get_property record (js "ticket_id") = Ok (Some t)
        /\ is_integer t = true).
Proof.
  intros (record & t & Hd & Hg & Hi).
  vm_compute in Hd. inversion Hd; subst record.
  vm_compute in Hg. inversion Hg; subst t. discriminate.
Qed.

Lemma C5_witness :
  (exists record dm dt,
      sample_decode plain_event = Ok record
      /\ Decode (js "hello") = Ok dm /\ Decode (js "42") = Ok dt
      /\ get_property record (js "message") = Ok (Some (JStr dm))
      /\ get_property record (js "ticket_id") = Ok (Some (JStr dt))
      /\ is_integer (JStr dt) = false)
  /\ is_string (JStr (jsq "a`b&c=d")) = true
  /\ is_integer (JStr (jsq "a`b&c=d")) = false.
Proof.
  destruct (C5_decoded_fields_are_strings sample_number_to_string
              [(js "message", js "hello"); (js "ticket_id", js "42")]
              (js "hello") (js "42")) as [Hform Hany].
  split.
  - apply Hform.
    + discriminate.
    + repeat constructor.
    + repeat constructor; eexists; vm_compute; reflexivity.
    + reflexivity.
    + reflexivity.
  - apply (Hany encoded_quote_event
             (JObj [(js "message", JStr (jsq "a`b&c=d"));
                    (js "ticket_id", JStr (js "1"))])
             (js "message")).
    + vm_compute. reflexivity.
    + reflexivity.
    + reflexivity.
Defined.

Lemma C6_witness :
  exists text,
    sample_handler network_up absent_body_event empty_world
    = (Ok {| statusCode := 500;
             response_body :=
               JSON_stringify
                 [(js "message", Some (sample_error_message (SyntaxError text)))] |},
       logged empty_world (js "Error") (ErrorObject (SyntaxError text)))
    /\ sample_error_message (SyntaxError text) <> [].
Proof.
  apply (C6_absent_or_empty_body_is_500 sample_upper sample_number_to_string
           sample_error_message sample_token sample_field_id network_up
           None empty_world).
  - intros text. discriminate.
  - left. reflexivity.
Defined.

Lemma C7_witness :
  (exists resp,
      sample_handler network_up no_url_event empty_world = (Ok resp, empty_world)
      /\ statusCode resp = 201)
  /\ (exists resp w' request,
         sample_handler network_up url_first_event empty_world = (Ok resp, w')
         /\ statusCode resp = 201
         /\ calls w' = calls empty_world ++ [request])
  /\ calls (snd (sample_handler network_up absent_body_event empty_world))
     = calls empty_world.
Proof.
  split; [|split].
  - apply (proj1 (C7_one_call_per_extraction sample_upper
                    sample_number_to_string sample_error_message sample_token
                    sample_field_id network_up no_url_event empty_world)
             (Some (JStr (js "7")))).
    vm_compute. reflexivity.
  - eapply (proj1 (proj2 (C7_one_call_per_extraction sample_upper
                            sample_number_to_string sample_error_message
                            sample_token sample_field_id network_up
                            url_first_event empty_world))
              (Some (JStr (js "42")))).
    vm_compute. reflexivity.
  - apply (proj2 (proj2 (C7_one_call_per_extraction sample_upper
                           sample_number_to_string sample_error_message
                           sample_token sample_field_id network_up
                           absent_body_event empty_world))).
    intros ticketId fields H. vm_compute in H. discriminate.
Defined.

Lemma C8_witness :
  sample_extractor
    (Some (JStr (js "https://one.example/a http://two.example/b")))
  = Ok (Some (link_update sample_field_id (js "https://one.example/a")))
  /\ sample_extractor (Some (JStr (leading_token (js "www.one.example two"))))
     = sample_extractor (Some (JStr (js "www.one.example two")))
  /\ exists urls,
       RegExp_match sample_upper (new_RegExp expression)
         (js "https://one.example/a http://two.example/b") = Some urls
       /\ List.length urls = 1%nat.
Proof.
  destruct (C8_extraction_deterministic_single_match sample_upper
              sample_field_id (js "https://one.example/a"))
    as (_ & _ & _ & Hfirst & _).
  destruct (C8_extraction_deterministic_single_match sample_upper
              sample_field_id (js "https://one.example/a http://two.example/b"))
    as (_ & _ & Hone & _ & _).
  destruct (C8_extraction_deterministic_single_match sample_upper
              sample_field_id (js "www.one.example two"))
    as (_ & _ & _ & _ & Hagain).
  split; [|split].
  - exact (Hfirst 32 (js "http://two.example/b") eq_refl eq_refl eq_refl).
  - exact (Hagain eq_refl).
  - eexists. split; [vm_compute; reflexivity|].
    apply Hone. vm_compute. reflexivity.
Defined.

Lemma C9_witness :
  sample_extraction url_first_event
  = Ok (Some (JStr (js "42")),
        Some (jsq "{`custom_field_id`:`1234`,`value`:`https://example.com/path`}"))
  /\ calls (snd (sample_handler network_up url_first_event empty_world))
     = [{| req_url := js "https://app.trengo.com/api/v2/tickets/42/custom_fields";
           req_method := js "POST";
           req_headers :=
             [(js "Accept", js "application/json");
              (js "Authorization", js "Bearer secret-token");
              (js "Content-Type", js "application/json")];
           req_body :=
             jsq "{`custom_field_id`:`1234`,`value`:`https://example.com/path`}" |}].
Proof.
  apply (C9_outbound_request_shape sample_upper sample_number_to_string
           sample_error_message network_up (js "secret-token") (js "1234")
           url_first_event empty_world
           (JObj [(js "message", JStr (js "https://example.com/path"));
                  (js "ticket_id", JStr (js "42"))])
           (js "https://example.com/path") (js "42")).
  - vm_compute. reflexivity.
  - reflexivity.
  - reflexivity.
  - reflexivity.
Defined.

Lemma C10_witness :
  (exists w',
      sample_handler network_up no_message_event empty_world
      = (Ok {| statusCode := 500;
               response_body :=
                 JSON_stringify
                   [(js "message",
                     Some (sample_error_message (TypeError PropertyOfNullish)))] |},
         w')
      /\ calls w' = calls empty_world).
Proof.
  apply (proj1 (C10_missing_message_is_500 sample_upper sample_number_to_string
                  sample_error_message sample_token sample_field_id network_up
                  no_message_event empty_world)
           (JObj [(js "ticket_id", JStr (js "7"))])).
  - vm_compute. reflexivity.
  - reflexivity.
Defined.

(** ** What [JSON.stringify] writes, [JSON.parse] reads back *)

Lemma nibbles (c : N) :
  c < 65536 ->
  ((c / 4096 mod 16 * 16 + c / 256 mod 16) * 16 + c / 16 mod 16) * 16 + c mod 16
  = c.
Proof.
  intros H.
  pose proof (N.div_mod c 16 ltac:(discriminate)) as H0.
  pose proof (N.div_mod (c / 16) 16 ltac:(discriminate)) as H1.
  pose proof (N.div_mod (c / 256) 16 ltac:(discriminate)) as H2.
  replace (c / 16 / 16) with (c / 256) in H1
    by (now rewrite N.Div0.div_div).
  replace (c / 256 / 16) with (c / 4096) in H2
    by (now rewrite N.Div0.div_div).
  assert (H3 : c / 4096 < 16) by (apply N.Div0.div_lt_upper_bound; lia).
  rewrite (N.mod_small (c / 4096) 16 H3).
  lia.
Qed.

Lemma hex_value_digit (d : N) : d < 16 -> hex_value (hex_digit d) = Some d.
Proof.
  intros H. unfold hex_value, hex_digit.
  destruct (N.ltb_spec d 10).
  - replace ((48 <=? 48 + d) && (48 + d <=? 57)) with true
      by (symmetry; apply andb_true_iff; split; apply N.leb_le; lia).
    f_equal. lia.
  - replace ((48 <=? 87 + d) && (87 + d <=? 57)) with false
      by (symmetry; apply andb_false_iff; right; apply N.leb_gt; lia).
    replace ((65 <=? 87 + d) && (87 + d <=? 70)) with false
      by (symmetry; apply andb_false_iff; right; apply N.leb_gt; lia).
    replace ((97 <=? 87 + d) && (87 + d <=? 102)) with true
      by (symmetry; apply andb_true_iff; split; apply N.leb_le; lia).
    f_equal. lia.
Qed.

Lemma lex_run_silent (st st' : lex_state) (c : code_unit) (rest : jsstring) :
  lex_step st c = Some ([], st') -> lex_run st (c :: rest) = lex_run st' rest.
Proof.
  intros H. cbn [lex_run]. rewrite H.
  now destruct (lex_run st' rest) as [[more st'']|].
Qed.

Lemma lex_run_unicode_escape (c : code_unit) (acc : jsstring) :
  c < 65536 ->
  lex_run (LString acc) (unicode_escape c) = Some ([], LString (c :: acc)).
Proof.
  intros H. unfold unicode_escape.
  change (js "\u") with [BACKSLASH; 117]. cbn [app].
  rewrite (lex_run_silent (LString acc) (LEscape acc)) by reflexivity.
  rewrite (lex_run_silent (LEscape acc) (LUnicode acc [])) by reflexivity.
  rewrite (lex_run_silent (LUnicode acc []) (LUnicode acc [c / 4096 mod 16]))
    by (cbn [lex_step]; now rewrite hex_value_digit
                          by (apply N.mod_lt; discriminate)).
  rewrite (lex_run_silent (LUnicode acc [c / 4096 mod 16])
             (LUnicode acc [c / 4096 mod 16; c / 256 mod 16]))
    by (cbn [lex_step]; now rewrite hex_value_digit
                          by (apply N.mod_lt; discriminate)).
  rewrite (lex_run_silent (LUnicode acc [c / 4096 mod 16; c / 256 mod 16])
             (LUnicode acc [c / 4096 mod 16; c / 256 mod 16; c / 16 mod 16]))
    by (cbn [lex_step]; now rewrite hex_value_digit
                          by (apply N.mod_lt; discriminate)).
  rewrite (lex_run_silent _ (LString (c :: acc))); [reflexivity|].
  cbn [lex_step]. rewrite hex_value_digit by (apply N.mod_lt; discriminate).
  now rewrite nibbles.
Qed.

(** One code unit as [JSON.stringify] writes it inside a string. *)
Lemma lex_run_quote_unit (c : code_unit) (acc : jsstring) :
  c < 65536 ->
  lex_run (LString acc) (quote_unit c) = Some ([], LString (c :: acc)).
Proof.
  intros H. unfold quote_unit.
  destruct (N.eqb_spec c 8) as [->|H8]; [reflexivity|].
  destruct (N.eqb_spec c 9) as [->|H9]; [reflexivity|].
  destruct (N.eqb_spec c 10) as [->|H10]; [reflexivity|].
  destruct (N.eqb_spec c 12) as [->|H12]; [reflexivity|].
  destruct (N.eqb_spec c 13) as [->|H13]; [reflexivity|].
  destruct (N.eqb_spec c DQUOTE) as [->|Hq]; [reflexivity|].
  destruct (N.eqb_spec c BACKSLASH) as [->|Hb]; [reflexivity|].
  destruct (N.ltb_spec c 32) as [Hl|Hl];
    [now apply lex_run_unicode_escape|].
  cbn [lex_run lex_step].
  destruct (N.eqb_spec c DQUOTE); [contradiction|].
  destruct (N.eqb_spec c BACKSLASH); [contradiction|].
  destruct (N.ltb_spec c 32); [lia|]. reflexivity.
Qed.

Lemma lex_run_quote_units (n : nat) :
  forall (s acc : jsstring),
    (List.length s <= n)%nat -> well_formed s ->
    lex_run (LString acc) (quote_units s ++ [DQUOTE])
    = Some ([TStr (rev acc ++ s)], LDefault).
Proof.
  induction n as [|n IH]; intros s acc Hn Hs.
  - destruct s; [|inversion Hn]. cbn [quote_units app lex_run lex_step].
    rewrite N.eqb_refl. cbn [app]. now rewrite app_nil_r.
  - destruct s as [|c rest].
    { cbn [quote_units app lex_run lex_step].
      rewrite N.eqb_refl. cbn [app]. now rewrite app_nil_r. }
    inversion Hs as [|? ? Hc Hrest]; subst.
    assert (Hone : forall (piece : jsstring),
               lex_run (LString acc) piece = Some ([], LString (c :: acc)) ->
               lex_run (LString acc) ((piece ++ quote_units rest) ++ [DQUOTE])
               = Some ([TStr (rev acc ++ c :: rest)], LDefault)).
    { intros piece Hp. rewrite <- app_assoc, lex_run_app, Hp.
      rewrite IH by (assumption || (cbn [List.length] in Hn; lia)).
      cbn [rev app]. now rewrite <- app_assoc. }
    cbn [quote_units].
    destruct (is_high_surrogate c) eqn:Eh.
    + destruct rest as [|d rest'].
      * rewrite lex_run_app, (lex_run_unicode_escape c acc Hc).
        cbn [lex_run lex_step]. rewrite N.eqb_refl. reflexivity.
      * destruct (is_low_surrogate d) eqn:El.
        -- inversion Hrest as [|? ? Hd Hrest']; subst.
           unfold is_high_surrogate in Eh. unfold is_low_surrogate in El.
           apply andb_true_iff in Eh as [Eh1 Eh2].
           apply andb_true_iff in El as [El1 El2].
           apply N.leb_le in Eh1, Eh2, El1, El2.
           assert (Hlit : forall x a, 55296 <= x ->
                     lex_step (LString a) x = Some ([], LString (x :: a))).
           { intros x a Hx. cbn [lex_step]. unfold DQUOTE, BACKSLASH.
             destruct (N.eqb_spec x 34); [lia|].
             destruct (N.eqb_spec x 92); [lia|].
             destruct (N.ltb_spec x 32); [lia|]. reflexivity. }
           cbn [app].
           rewrite (lex_run_silent _ _ _ _ (Hlit c acc Eh1)).
           rewrite (lex_run_silent _ _ _ _ (Hlit d (c :: acc) ltac:(lia))).
           rewrite IH by (assumption || (cbn [List.length] in Hn; lia)).
           cbn [rev app]. now rewrite <- !app_assoc.
        -- apply Hone. now apply lex_run_unicode_escape.
    + destruct (is_low_surrogate c).
      * apply Hone. now apply lex_run_unicode_escape.
      * apply Hone. now apply lex_run_quote_unit.
Qed.

Lemma lex_run_quoted (s : jsstring) :
  well_formed s ->
  lex_run LDefault (QuoteJSONString s) = Some ([TStr s], LDefault).
Proof.
  intros Hs. unfold QuoteJSONString.
  change ([DQUOTE] ++ quote_units s ++ [DQUOTE])
    with (DQUOTE :: (quote_units s ++ [DQUOTE])).
  rewrite (lex_run_silent LDefault (LString [])) by reflexivity.
  exact (lex_run_quote_units (List.length s) s [] (le_n _) Hs).
Qed.

Lemma lex_run_property (k v : jsstring) :
  well_formed k -> well_formed v ->
  lex_run LDefault (QuoteJSONString k ++ js ":" ++ QuoteJSONString v)
  = Some ([TStr k; TColon; TStr v], LDefault).
Proof.
  intros Hk Hv.
  rewrite lex_run_app, (lex_run_quoted k Hk).
  change (js ":" ++ QuoteJSONString v) with (58 :: QuoteJSONString v).
  cbn [lex_run]. change (lex_step LDefault 58) with (Some ([TColon], LDefault)).
  cbv iota beta. now rewrite (lex_run_quoted v Hv).
Qed.

Lemma lex_run_properties (pairs : list (jsstring * jsstring)) :
  pairs <> [] ->
  Forall (fun p => well_formed (fst p) /\ well_formed (snd p)) pairs ->
  lex_run LDefault
    (join (js ",")
       (List.map (fun p => QuoteJSONString (fst p) ++ js ":"
                           ++ QuoteJSONString (snd p)) pairs))
  = Some (member_tokens pairs, LDefault).
Proof.
  intros Hne Hall. induction Hall as [|[k v] ps [Hk Hv] Hps IH]; [contradiction|].
  cbn [fst snd] in Hk, Hv. unfold member_tokens in *.
  destruct ps as [|q ps].
  - cbn [List.map join fst snd]. now apply lex_run_property.
  - cbn [List.map] in *. rewrite join_cons2, (join_cons2 [TComma]).
    cbn [fst snd]. rewrite lex_run_app, (lex_run_property k v Hk Hv).
    match goal with
    | |- context [lex_run LDefault (js "," ++ ?rest)] =>
        change (js "," ++ rest) with (44 :: rest)
    end.
    cbn [lex_run]. change (lex_step LDefault 44) with (Some ([TComma], LDefault)).
    cbv iota beta. rewrite IH by discriminate. reflexivity.
Qed.

Lemma stringified_properties (props : list (jsstring * option jsstring)) :
  flat_map stringify_property props
  = List.map (fun p => QuoteJSONString (fst p) ++ js ":" ++ QuoteJSONString (snd p))
      (defined_properties props).
Proof.
  unfold defined_properties.
  induction props as [|[k [v|]] ps IH]; cbn [flat_map stringify_property fst snd].
  - reflexivity.
  - cbn [app List.map fst snd]. now rewrite IH.
  - exact IH.
Qed.

(** The text [JSON.stringify] writes for an object of strings denotes
    that object: [JSON.parse] reads back every key and value, whatever
    code units they hold. *)
Lemma parse_stringified (props : list (jsstring * option jsstring)) :
  Forall (fun p => well_formed (fst p) /\ well_formed (snd p))
    (defined_properties props) ->
  parse_text (JSON_stringify props)
  = Ok (JObj (set_pairs [] (defined_properties props))).
Proof.
  intros Hwf. unfold JSON_stringify, parse_text.
  rewrite stringified_properties.
  destruct (defined_properties props) as [|[k v] ps] eqn:E; [reflexivity|].
  rewrite lex_app.
  change (lex_run LDefault (js "{")) with (Some ([TLBrace], LDefault)).
  cbv iota beta. rewrite lex_app, lex_run_properties by (assumption || discriminate).
  change (lex LDefault (js "}")) with (Some [TRBrace]).
  cbv iota beta.
  change ([TLBrace] ++ member_tokens ((k, v) :: ps) ++ [TRBrace])
    with (TLBrace :: (member_tokens ((k, v) :: ps) ++ [TRBrace])).
  cbn [parse_tokens parse_step value_start].
  assert (Hfirst :
            parse_tokens (SObjFirst []) (member_tokens ((k, v) :: ps) ++ [TRBrace])
            = parse_tokens (SObjKey [] []) (member_tokens ((k, v) :: ps) ++ [TRBrace])).
  { unfold member_tokens. destruct ps; reflexivity. }
  rewrite Hfirst, parse_tokens_app, parse_members by discriminate.
  reflexivity.
Qed.

(** ** More on the decoder *)

Lemma Decode_percent_free (s : jsstring) :
  percent_free s = true -> Decode s = Ok s.
Proof.
  intros H. unfold Decode.
  assert (Hitems : percent_items s = Some (List.map Unit s)).
  { induction s as [|c s IH]; [reflexivity|].
    cbn [percent_free forallb] in H. apply andb_true_iff in H as [Hc Hs].
    apply negb_true_iff in Hc. cbn [percent_items List.map].
    now rewrite Hc, (IH Hs). }
  rewrite Hitems.
  assert (Hunits : utf8_units (List.map Unit s) = Some s).
  { clear. induction s as [|c s IH]; [reflexivity|].
    cbn [List.map utf8_units]. now rewrite IH. }
  now rewrite Hunits.
Qed.

Lemma Decode_throws_URIError (s : jsstring) (e : exn) :
  Decode s = Throw e -> e = ErrorObject URIError.
Proof.
  unfold Decode. destruct (percent_items s) as [items|].
  - destruct (utf8_units items); intros H; inversion H; reflexivity.
  - intros H; inversion H; reflexivity.
Qed.

Lemma obj_set_in (members : list (jsstring * value)) (k' : jsstring) (v' : value)
    (k : jsstring) (x : value) :
  In (k, x) (obj_set members k' v') -> In (k, x) members \/ (k = k' /\ x = v').
Proof.
  induction members as [|[k2 v2] ms IH]; cbn [obj_set In].
  - intros [H|[]]. inversion H. now right.
  - destruct (jseqb k2 k') eqn:E; cbn [In].
    + apply jseqb_eq in E. subst k2.
      intros [H|H]; [inversion H; now right|left; now right].
    + intros [H|H]; [left; now left|].
      destruct (IH H) as [?|?]; [left; now right|now right].
Qed.

Lemma set_pairs_in (pairs : list (jsstring * jsstring))
    (members : list (jsstring * value)) (k : jsstring) (x : value) :
  In (k, x) (set_pairs members pairs) ->
  In (k, x) members \/ exists v, x = JStr v /\ In (k, v) pairs.
Proof.
  revert members. induction pairs as [|[k' v'] ps IH]; intros members H.
  - now left.
  - unfold set_pairs in *. cbn [fold_left fst snd] in H.
    destruct (IH _ H) as [Hin|(v & -> & Hin)].
    + apply obj_set_in in Hin as [?|[-> ->]]; [now left|].
      right. exists v'. split; [reflexivity|now left].
    + right. exists v. split; [reflexivity|now right].
Qed.

Lemma obj_get_in (members : list (jsstring * value)) (k : jsstring) (x : value) :
  obj_get members k = Some x -> In (k, x) members.
Proof.
  induction members as [|[k2 v2] ms IH]; cbn [obj_get]; [discriminate|].
  destruct (jseqb k2 k) eqn:E.
  - apply jseqb_eq in E. subst. intros H; inversion H. now left.
  - intros H. right. auto.
Qed.

Lemma insert_by_index_keeps {A} (n : N) (x y : A) (l : list (N * A)) :
  y = x \/ In y (List.map snd l) -> In y (List.map snd (insert_by_index n x l)).
Proof.
  induction l as [|[m z] l IH]; cbn [insert_by_index List.map snd In].
  - intros [H|[]]. now left.
  - destruct (n <? m); cbn [List.map snd In].
    + intros [H|[H|H]]; auto.
    + intros [H|[H|H]]; auto.
Qed.

Lemma own_property_order_keeps {A} (members : list (jsstring * A)) (y : A) :
  In y (List.map snd members) -> In y (own_property_order members).
Proof.
  unfold own_property_order. rewrite in_app_iff.
  induction members as [|p ms IH]; [contradiction|].
  cbn [List.map In fold_right filter].
  intros [H|H].
  - destruct (array_index (fst p)).
    + left. apply insert_by_index_keeps. now left.
    + right. cbn [List.map In]. now left.
  - destruct (IH H) as [Hi|Hn].
    + left. destruct (array_index (fst p)); [|assumption].
      apply insert_by_index_keeps. now right.
    + right. destruct (array_index (fst p)); [assumption|].
      cbn [List.map In]. now right.
Qed.

Lemma sequence_throws {A} (l : list (Result A)) (e0 : exn) :
  In (Throw e0) l ->
  (forall e, In (Throw e) l -> e = e0) ->
  sequence l = Throw e0.
Proof.
  induction l as [|r l IH]; intros Hin Hall; [contradiction|].
  cbn [sequence]. destruct r as [a|e].
  - cbn [rbind]. rewrite IH.
    + reflexivity.
    + destruct Hin as [H|H]; [discriminate|assumption].
    + intros e He. apply Hall. now right.
  - cbn [rbind]. f_equal. apply Hall. now left.
Qed.

Section Extras.

Variable unicode_upper : code_unit -> code_unit.
Variable number_to_string : jsstring -> jsstring.
Variable error_message : js_error -> jsstring.
Variable TRENGO_TOKEN : option jsstring.
Variable TRENGO_LINK_FIELD_ID : option jsstring.
Variable network : Request -> option exn.

#[local] Abbreviation handler :=
  (lambdaHandler unicode_upper number_to_string error_message
     TRENGO_TOKEN TRENGO_LINK_FIELD_ID network).
#[local] Abbreviation extracted :=
  (extraction unicode_upper number_to_string TRENGO_LINK_FIELD_ID).
#[local] Abbreviation decoded := (decode_body number_to_string).
#[local] Abbreviation extractor :=
  (parseCustomTicketFields unicode_upper TRENGO_LINK_FIELD_ID).
#[local] Abbreviation walk := (internalize number_to_string).

Lemma walk_string (k v : jsstring) :
  walk k (JStr v)
  = if is_empty k then Ok (JStr v)
    else match Decode v with
         | Ok d => Ok (JStr d)
         | Throw e => Throw e
         end.
Proof.
  cbn [internalize]. unfold reviver, decodeURIComponent. cbn [ToString rbind].
  destruct (is_empty k); [reflexivity|]. now destruct (Decode v).
Qed.

Lemma decoded_form_body (pairs : list (jsstring * jsstring)) :
  pairs <> [] -> Forall plain_pair pairs ->
  decoded {| body := Some (form_body pairs) |}
  = walk [] (JObj (set_pairs [] pairs)).
Proof.
  intros Hne Hplain.
  unfold decode_body, JSON_parse. cbn [body option_map concat_operand].
  change (replace_all EQUALS ([DQUOTE] ++ js ":" ++ [DQUOTE])
            (replace_all AMPERSAND ([DQUOTE] ++ js "," ++ [DQUOTE])
               (form_body pairs)))
    with (substituted (form_body pairs)).
  now rewrite parse_text_form_body by assumption.
Qed.

Lemma walk_unchanged (members : list (jsstring * value)) :
  Forall (fun m => walk (fst m) (snd m) = Ok (snd m)) members ->
  walk [] (JObj members) = Ok (JObj members).
Proof.
  intros Hall. cbn [internalize]. unfold in_visit_order.
  destruct (sequence_all_ok
              (own_property_order
                 (List.map (fun p => (fst p, walk (fst p) (snd p))) members)))
    as [visited Hv].
  { intros r Hr. apply own_property_order_in in Hr.
    rewrite map_map in Hr. cbn [snd] in Hr.
    apply in_map_iff in Hr as (m & <- & Hm).
    rewrite Forall_forall in Hall. rewrite (Hall m Hm). eauto. }
  rewrite Hv. cbn [rbind]. clear Hv visited.
  assert (Hseq : sequence
                   (List.map (fun p => (x <- snd p ;; Ok (fst p, x))%result)
                      (List.map (fun p => (fst p, walk (fst p) (snd p))) members))
                 = Ok members).
  { induction Hall as [|[k x] ms Hx Hms IH]; [reflexivity|].
    cbn [fst snd] in Hx. cbn [List.map sequence fst snd].
    rewrite Hx. cbn [rbind]. rewrite IH. reflexivity. }
  rewrite Hseq. reflexivity.
Qed.

(** X4: a body of plain pairs whose values hold no [%] decodes to exactly
    the object of its pairs, each value as it stands in the body; for a
    repeated key the value given last stays, in the place of the first.
    Nothing but percent escapes is decoded: a [+] stays a [+]. *)
Theorem X4_values_without_percent_unchanged
    (pairs : list (jsstring * jsstring)) :
  pairs <> [] -> Forall plain_pair pairs ->
  Forall (fun p => percent_free (snd p) = true) pairs ->
  decoded {| body := Some (form_body pairs) |} = Ok (JObj (set_pairs [] pairs))
  /\ forall k,
       get_property (JObj (set_pairs [] pairs)) k
       = Ok (option_map JStr (last_value pairs k)).
Proof.
  intros Hne Hplain Hfree. split.
  - rewrite decoded_form_body by assumption.
    apply walk_unchanged. rewrite Forall_forall. intros [k x] Hin.
    apply set_pairs_in in Hin as [[]|(v & -> & Hin)].
    cbn [fst snd]. rewrite walk_string.
    rewrite Forall_forall in Hfree.
    rewrite (Decode_percent_free v (Hfree (k, v) Hin)).
    now destruct (is_empty k).
  - intros k. cbn [get_property]. rewrite set_pairs_get.
    now destruct (last_value pairs k).
Qed.

Lemma walk_form_members (pairs : list (jsstring * jsstring)) :
  Forall (fun p => is_empty (fst p) = true \/ exists d, Decode (snd p) = Ok d)
    pairs ->
  Forall (fun m => exists y, walk (fst m) (snd m) = Ok y) (set_pairs [] pairs).
Proof.
  intros Hdec. rewrite Forall_forall in *. intros [k x] Hin.
  apply set_pairs_in in Hin as [[]|(v & -> & Hin)].
  cbn [fst snd]. rewrite walk_string.
  destruct (Hdec (k, v) Hin) as [He|[d Hd]]; cbn [fst snd] in *.
  - rewrite He. eauto.
  - rewrite Hd. destruct (is_empty k); eauto.
Qed.

Lemma decode_named_fields (pairs : list (jsstring * jsstring)) :
  pairs <> [] -> Forall plain_pair pairs ->
  Forall (fun p => is_empty (fst p) = true \/ exists d, Decode (snd p) = Ok d)
    pairs ->
  exists members,
    decoded {| body := Some (form_body pairs) |} = Ok (JObj members)
    /\ (forall v, last_value pairs [] = Some v ->
          obj_get members [] = Some (JStr v))
    /\ (forall k v, is_empty k = false -> last_value pairs k = Some v ->
          exists d, Decode v = Ok d /\ obj_get members k = Some (JStr d)).
Proof.
  intros Hne Hplain Hdec. rewrite decoded_form_body by assumption.
  destruct (walk_members number_to_string (set_pairs [] pairs)
              (walk_form_members pairs Hdec)) as (members & Hm & Hget).
  exists members. split; [assumption|]. split.
  - intros v Hlast.
    destruct (Hget [] (JStr v)) as (y & Hy & Hgy).
    { now rewrite set_pairs_get, Hlast. }
    rewrite walk_string in Hy. cbn [is_empty] in Hy. inversion Hy; subst.
    assumption.
  - intros k v Hk Hlast.
    destruct (Hget k (JStr v)) as (y & Hy & Hgy).
    { now rewrite set_pairs_get, Hlast. }
    rewrite walk_string, Hk in Hy.
    destruct (Decode v) as [d|]; [|discriminate].
    inversion Hy; subst. eauto.
Qed.

(** X5: the reviver leaves the value under the empty key as it is.  In a
    body of plain pairs whose named values percent-decode, a pair with an
    empty key does not stop the decoding, whatever its value, and its
    value is returned without percent-decoding; the named fields are
    decoded as usual. *)
Theorem X5_empty_key_is_not_decoded (pairs : list (jsstring * jsstring)) :
  pairs <> [] -> Forall plain_pair pairs ->
  Forall (fun p => is_empty (fst p) = true \/ exists d, Decode (snd p) = Ok d)
    pairs ->
  exists members,
    decoded {| body := Some (form_body pairs) |} = Ok (JObj members)
    /\ (forall v, last_value pairs [] = Some v ->
          obj_get members [] = Some (JStr v))
    /\ (forall k v, is_empty k = false -> last_value pairs k = Some v ->
          exists d, Decode v = Ok d /\ obj_get members k = Some (JStr d)).
Proof. exact (decode_named_fields pairs). Qed.

(** X6: a malformed percent escape is fatal for the whole request.  When
    the value that a body of plain pairs gives last for some named key
    does not percent-decode, the decoder throws a [URIError], and the
    handler answers 500 with the text of that error and sends nothing. *)
Theorem X6_malformed_escape_is_500 (pairs : list (jsstring * jsstring))
    (k v : jsstring) (e : exn) (w : World) :
  pairs <> [] -> Forall plain_pair pairs ->
  is_empty k = false -> last_value pairs k = Some v -> Decode v = Throw e ->
  decoded {| body := Some (form_body pairs) |} = Throw (ErrorObject URIError)
  /\ exists w',
       handler {| body := Some (form_body pairs) |} w
       = (Ok {| statusCode := 500;
                response_body :=
                  JSON_stringify [(js "message", Some (error_message URIError))] |},
          w')
       /\ calls w' = calls w.
Proof.
  intros Hne Hplain Hk Hlast He.
  assert (Hd : decoded {| body := Some (form_body pairs) |}
               = Throw (ErrorObject URIError)).
  { rewrite decoded_form_body by assumption.
    cbn [internalize]. unfold in_visit_order.
    rewrite (sequence_throws _ (ErrorObject URIError)); [reflexivity| |].
    - apply own_property_order_keeps. rewrite map_map. cbn [snd].
      apply in_map_iff. exists (k, JStr v). split.
      + cbn [fst snd]. rewrite walk_string, Hk, He.
        now rewrite (Decode_throws_URIError v e He).
      + apply obj_get_in. now rewrite set_pairs_get, Hlast.
    - intros e' Hin. apply own_property_order_in in Hin.
      rewrite map_map in Hin. cbn [snd] in Hin.
      apply in_map_iff in Hin as ([k' x'] & Hx & Hin). cbn [fst snd] in Hx.
      apply set_pairs_in in Hin as [[]|(v' & -> & _)].
      rewrite walk_string in Hx. destruct (is_empty k'); [discriminate|].
      destruct (Decode v') eqn:Ed; [discriminate|].
      inversion Hx; subst. now apply (Decode_throws_URIError v'). }
  split; [exact Hd|].
  exists (logged w (js "Error") (ErrorObject URIError)). split; [|reflexivity].
  apply (handler_failure _ _ _ _ _ _ _ w (ErrorObject URIError)).
  unfold extraction. now rewrite Hd.
Qed.

(** X1: the handler from end to end on a body of plain pairs whose named
    values percent-decode.  With [m] the decoded [message] and [T] the
    decoded [ticket_id], the answer is 201 with
    [Ticket's T custom fields set]; when [m] begins with a URL prefix one
    request goes to ticket [T] with the update for the leading token of
    [m], otherwise nothing is sent. *)
Theorem X1_form_body_end_to_end (pairs : list (jsstring * jsstring))
    (mv tv m T : jsstring) (w : World) :
  pairs <> [] -> Forall plain_pair pairs ->
  Forall (fun p => is_empty (fst p) = true \/ exists d, Decode (snd p) = Ok d)
    pairs ->
  last_value pairs (js "message") = Some mv -> Decode mv = Ok m ->
  last_value pairs (js "ticket_id") = Some tv -> Decode tv = Ok T ->
  fst (handler {| body := Some (form_body pairs) |} w)
  = Ok {| statusCode := 201;
          response_body :=
            JSON_stringify
              [(js "message", Some (js "Ticket's " ++ T ++ js " custom fields set"))] |}
  /\ calls (snd (handler {| body := Some (form_body pairs) |} w))
     = calls w
       ++ if begins_with_url_prefix m
          then [trengo_request TRENGO_TOKEN T
                  (JSON_stringify
                     [(js "custom_field_id", TRENGO_LINK_FIELD_ID);
                      (js "value", Some (leading_token m))])]
          else [].
Proof.
  intros Hne Hplain Hdec Hm Hdm Ht HdT.
  destruct (decode_named_fields pairs Hne Hplain Hdec) as (members & Hd & _ & Hget).
  destruct (Hget (js "message") mv eq_refl Hm) as (m' & Hm' & Hgm).
  destruct (Hget (js "ticket_id") tv eq_refl Ht) as (T' & HT' & Hgt).
  rewrite Hdm in Hm'. inversion Hm'; subst m'.
  rewrite HdT in HT'. inversion HT'; subst T'.
  assert (Hx : extracted {| body := Some (form_body pairs) |}
               = Ok (Some (JStr T),
                     if begins_with_url_prefix m
                     then Some (link_update TRENGO_LINK_FIELD_ID (leading_token m))
                     else None)).
  { unfold extraction. rewrite Hd. cbn [rbind get_property].
    rewrite Hgm, Hgt. cbn [rbind]. rewrite extractor_on_string. reflexivity. }
  destruct (begins_with_url_prefix m).
  - rewrite (handler_with_update _ _ _ _ _ _ _ w _ T _ Hx eq_refl).
    split; [reflexivity|]. cbn [snd]. unfold notified.
    destruct (network _); reflexivity.
  - rewrite (handler_without_update _ _ _ _ _ _ _ w _ T Hx eq_refl).
    split; [reflexivity|]. cbn [snd]. now rewrite app_nil_r.
Qed.

(** X2: the environment is not validated.  With neither the API token
    nor the field id set, a message that begins with a URL is still sent:
    the payload has no [custom_field_id] and the header reads
    [Bearer undefined]. *)
Theorem X2_unconfigured_environment (event : APIGatewayProxyEvent) (w : World)
    (record : value) (m T : jsstring) :
  decoded event = Ok record ->
  get_property record (js "message") = Ok (Some (JStr m)) ->
  get_property record (js "ticket_id") = Ok (Some (JStr T)) ->
  begins_with_url_prefix m = true ->
  parseCustomTicketFields unicode_upper None (Some (JStr m))
  = Ok (Some (jsq "{`value`:" ++ QuoteJSONString (leading_token m) ++ js "}"))
  /\ calls (snd (lambdaHandler unicode_upper number_to_string error_message
                   None None network event w))
     = calls w
       ++ [{| req_url := js "https://app.trengo.com/api/v2/tickets/" ++ T
                         ++ js "/custom_fields";
              req_method := js "POST";
              req_headers :=
                [(js "Accept", js "application/json");
                 (js "Authorization", js "Bearer undefined");
                 (js "Content-Type", js "application/json")];
              req_body :=
                jsq "{`value`:" ++ QuoteJSONString (leading_token m) ++ js "}" |}].
Proof.
  intros Hd Hm Ht Hb.
  assert (Hp : parseCustomTicketFields unicode_upper None (Some (JStr m))
               = Ok (Some (jsq "{`value`:" ++ QuoteJSONString (leading_token m)
                           ++ js "}"))).
  { rewrite extractor_on_string, Hb. unfold JSON_stringify.
    cbn [flat_map stringify_property join app].
    rewrite <- ?app_assoc. reflexivity. }
  split; [exact Hp|].
  assert (Hx : extraction unicode_upper number_to_string None event
               = Ok (Some (JStr T),
                     Some (jsq "{`value`:" ++ QuoteJSONString (leading_token m)
                           ++ js "}"))).
  { unfold extraction. rewrite Hd. cbn [rbind]. rewrite Hm. cbn [rbind].
    rewrite Ht. cbn [rbind]. now rewrite Hp. }
  rewrite (handler_with_update _ _ _ _ _ _ event w _ T _ Hx eq_refl).
  cbn [snd]. unfold notified. destruct (network _); reflexivity.
Qed.

(** X3: a body without [ticket_id] is not an error.  The id is
    [undefined]: the answer is 201 with
    [Ticket's undefined custom fields set], and for a message that begins
    with a URL the request goes to [/tickets/undefined/custom_fields]. *)
Theorem X3_missing_ticket_id (event : APIGatewayProxyEvent) (w : World)
    (record : value) (m : jsstring) :
  decoded event = Ok record ->
  get_property record (js "message") = Ok (Some (JStr m)) ->
  get_property record (js "ticket_id") = Ok None ->
  fst (handler event w)
  = Ok {| statusCode := 201;
          response_body :=
            jsq "{`message`:`Ticket's undefined custom fields set`}" |}
  /\ calls (snd (handler event w))
     = calls w
       ++ if begins_with_url_prefix m
          then [{| req_url :=
                     js "https://app.trengo.com/api/v2/tickets/undefined/custom_fields";
                   req_method := js "POST";
                   req_headers :=
                     [(js "Accept", js "application/json");
                      (js "Authorization",
                       js "Bearer " ++ template_string TRENGO_TOKEN);
                      (js "Content-Type", js "application/json")];
                   req_body :=
                     JSON_stringify
                       [(js "custom_field_id", TRENGO_LINK_FIELD_ID);
                        (js "value", Some (leading_token m))] |}]
          else [].
Proof.
  intros Hd Hm Ht.
  assert (Hx : extracted event
               = Ok (None,
                     if begins_with_url_prefix m
                     then Some (link_update TRENGO_LINK_FIELD_ID (leading_token m))
                     else None)).
  { unfold extraction. rewrite Hd. cbn [rbind]. rewrite Hm. cbn [rbind].
    rewrite Ht. cbn [rbind]. rewrite extractor_on_string. reflexivity. }
  destruct (begins_with_url_prefix m).
  - rewrite (handler_with_update _ _ _ _ _ _ _ w _ (js "undefined") _ Hx eq_refl).
    split; [reflexivity|]. cbn [snd]. unfold notified.
    destruct (network _); reflexivity.
  - rewrite (handler_without_update _ _ _ _ _ _ _ w _ (js "undefined") Hx eq_refl).
    split; [reflexivity|]. cbn [snd]. now rewrite app_nil_r.
Qed.

Lemma white_space_is_no_prefix (c a : code_unit) :
  is_white_space c = true -> (a = 104 \/ a = 119) ->
  (ascii_upper c =? ascii_upper a) = false.
Proof.
  intros Hc Ha. apply N.eqb_neq. intros E.
  assert (Hcases : c = 72 \/ c = 104 \/ c = 87 \/ c = 119).
  { destruct Ha as [-> | ->]; unfold ascii_upper in E;
      destruct (N.leb_spec 97 c), (N.leb_spec c 122); cbn in E; lia. }
  destruct Hcases as [-> | [-> | [-> | ->]]]; discriminate.
Qed.

(** X7: nothing is skipped before the URL.  A message that is empty or
    begins with a white space character, be it a space or a line break
    in front of a URL, yields no update. *)
Theorem X7_leading_white_space_no_update (c : code_unit) (rest : jsstring) :
  is_white_space c = true ->
  extractor (Some (JStr (c :: rest))) = Ok None
  /\ extractor (Some (JStr [])) = Ok None.
Proof.
  intros Hc. split; [|reflexivity].
  rewrite extractor_on_string. unfold begins_with_url_prefix.
  change (js "https:") with (104 :: js "ttps:").
  change (js "http:") with (104 :: js "ttp:").
  change (js "www.") with (119 :: js "ww.").
  cbn [ci_prefix].
  rewrite (white_space_is_no_prefix c 104 Hc (or_introl eq_refl)).
  rewrite (white_space_is_no_prefix c 119 Hc (or_intror eq_refl)).
  reflexivity.
Qed.

Lemma take_while_well_formed (p : code_unit -> bool) (s : jsstring) :
  well_formed s -> well_formed (take_while p s).
Proof.
  unfold well_formed. induction 1 as [|c s Hc Hs IH]; cbn [take_while].
  - constructor.
  - destruct (p c); constructor; assumption.
Qed.

(** X8: the payload is JSON whatever the URL holds.  For every message
    of UTF-16 code units that begins with a URL prefix, the text the
    extractor returns denotes the object with [custom_field_id], when the
    field id is set, and [value]; read back by the parser, [value] is the
    leading token of the message, code unit for code unit, quotes,
    backslashes, control characters and lone surrogates included. *)
Theorem X8_payload_reads_back (m : jsstring) :
  well_formed m ->
  (forall id, TRENGO_LINK_FIELD_ID = Some id -> well_formed id) ->
  begins_with_url_prefix m = true ->
  exists payload,
    extractor (Some (JStr m)) = Ok (Some payload)
    /\ parse_text payload
       = Ok (JObj (match TRENGO_LINK_FIELD_ID with
                   | Some id => [(js "custom_field_id", JStr id);
                                 (js "value", JStr (leading_token m))]
                   | None => [(js "value", JStr (leading_token m))]
                   end)).
Proof.
  intros Hm Hid Hb. eexists. rewrite extractor_on_string, Hb.
  split; [reflexivity|].
  assert (Htok : well_formed (leading_token m))
    by now apply take_while_well_formed.
  unfold link_update. rewrite parse_stringified.
  - destruct TRENGO_LINK_FIELD_ID; reflexivity.
  - assert (H1 : well_formed (js "custom_field_id"))
      by (repeat constructor; cbn; lia).
    assert (H2 : well_formed (js "value")) by (repeat constructor; cbn; lia).
    destruct TRENGO_LINK_FIELD_ID as [id|] eqn:E;
      cbn [defined_properties flat_map fst snd app];
      repeat constructor; cbn [fst snd]; auto.
Qed.

(** X9: the body of every response is a JSON object with the one member
    [message].  When decoding or extraction threw [e], the parser reads
    the body of the answer back as [message] with the text of [e]; in
    every other case as [message] with [Ticket's id custom fields set],
    [id] being the ticket id as the template prints it.  The texts are
    taken to be made of UTF-16 code units. *)
Theorem X9_response_body_is_one_member (event : APIGatewayProxyEvent) (w : World) :
  (forall e,
      extracted event = Throw e ->
      well_formed (error_text error_message e) ->
      exists resp,
        fst (handler event w) = Ok resp
        /\ parse_text (response_body resp)
           = Ok (JObj [(js "message", JStr (error_text error_message e))]))
  /\ (forall ticketId fields id,
         extracted event = Ok (ticketId, fields) ->
         template number_to_string ticketId = Ok id ->
         well_formed id ->
         exists resp,
           fst (handler event w) = Ok resp
           /\ parse_text (response_body resp)
              = Ok (JObj [(js "message",
                           JStr (js "Ticket's " ++ id ++ js " custom fields set"))])).
Proof.
  assert (Hkey : well_formed (js "message")) by (repeat constructor; cbn; lia).
  split.
  - intros e Hx Ht. rewrite handler_response. unfold response_of.
    rewrite Hx. cbn [rbind]. eexists. split; [reflexivity|].
    cbn [failure_response response_body].
    rewrite parse_stringified; [reflexivity|].
    cbn [defined_properties flat_map fst snd app].
    constructor; [split; assumption|constructor].
  - intros ticketId fields id Hx Hid Ht. rewrite handler_response.
    unfold response_of. rewrite Hx. cbn [rbind fst]. rewrite Hid.
    eexists. split; [reflexivity|].
    cbn [success_response response_body].
    rewrite parse_stringified; [reflexivity|].
    cbn [defined_properties flat_map fst snd app].
    constructor; [split; [assumption|]|constructor].
    cbn [fst snd]. unfold well_formed in *.
    apply Forall_app. split; [repeat constructor; cbn; lia|].
    apply Forall_app. split; [assumption|repeat constructor; cbn; lia].
Qed.

(** X10: the notifier never throws.  Whatever the payload, the ticket id
    and the network, [sendToTrengo] returns normally.  When the id
    converts to a string it sends exactly one request and logs one line
    if and only if [fetch] rejected; when the conversion fails it sends
    nothing and logs that error. *)
Theorem X10_notifier_never_throws (message : jsstring) (ticketId : option value)
    (w : World) :
  exists w',
    sendToTrengo number_to_string TRENGO_TOKEN network message ticketId w
    = (Ok tt, w')
    /\ (forall id,
           template number_to_string ticketId = Ok id ->
           calls w' = calls w ++ [trengo_request TRENGO_TOKEN id message]
           /\ logs w'
              = logs w
                ++ match network (trengo_request TRENGO_TOKEN id message) with
                   | Some e => [{| log_text := js "Error when sending to Trengo";
                                   log_error_value := e |}]
                   | None => []
                   end)
    /\ (forall e,
           template number_to_string ticketId = Throw e ->
           calls w' = calls w
           /\ logs w' = logs w ++ [{| log_text := js "Error when sending to Trengo";
                                      log_error_value := e |}]).
Proof.
  unfold sendToTrengo, try_catch, bind, lift, fetch, log_error.
  destruct (template number_to_string ticketId) as [id|e] eqn:Et.
  - change (List.map ascii_upper (js "post")) with (js "POST").
    fold (trengo_request TRENGO_TOKEN id message).
    destruct (network (trengo_request TRENGO_TOKEN id message)) as [e|] eqn:En.
    + eexists. split; [reflexivity|]. split.
      * intros id' Hid. inversion Hid; subst id'. rewrite En.
        split; reflexivity.
      * discriminate.
    + eexists. split; [reflexivity|]. split.
      * intros id' Hid. inversion Hid; subst id'. rewrite En.
        cbn [calls logs]. split; [reflexivity|now rewrite app_nil_r].
      * discriminate.
  - eexists. split; [reflexivity|]. split; [discriminate|].
    intros e' He. inversion He; subst e'. split; reflexivity.
Qed.

(** X11: what the handler logs.  It logs one line [Error] with the
    exception when decoding or extraction threw, and the 500 answer
    carries the message of that exception; it logs nothing when no update
    was found; and after sending it logs one line if and only if [fetch]
    rejected. *)
Theorem X11_handler_log_lines (event : APIGatewayProxyEvent) (w : World) :
  (forall e,
      extracted event = Throw e ->
      handler event w
      = (Ok {| statusCode := 500;
               response_body :=
                 JSON_stringify
                   [(js "message", Some (error_text error_message e))] |},
         {| calls := calls w;
            logs := logs w ++ [{| log_text := js "Error"; log_error_value := e |}] |}))
  /\ (forall ticketId,
         extracted event = Ok (ticketId, None) ->
         logs (snd (handler event w)) = logs w)
  /\ (forall ticketId fields,
         extracted event = Ok (ticketId, Some fields) ->
         exists request,
           calls (snd (handler event w)) = calls w ++ [request]
           /\ req_body request = fields
           /\ logs (snd (handler event w))
              = logs w
                ++ match network request with
                   | Some e => [{| log_text := js "Error when sending to Trengo";
                                   log_error_value := e |}]
                   | None => []
                   end).
Proof.
  split; [|split].
  - intros e He. now rewrite (handler_failure _ _ _ _ _ _ _ w e He).
  - intros ticketId Hx.
    destruct (extraction_template _ _ _ _ _ _ Hx) as [id Hid].
    now rewrite (handler_without_update _ _ _ _ _ _ _ w _ id Hx Hid).
  - intros ticketId fields Hx.
    destruct (extraction_template _ _ _ _ _ _ Hx) as [id Hid].
    rewrite (handler_with_update _ _ _ _ _ _ _ w _ id fields Hx Hid).
    exists (trengo_request TRENGO_TOKEN id fields). cbn [snd]. unfold notified.
    destruct (network _); cbn [calls logs logged req_body trengo_request];
      repeat split; try reflexivity.
    now rewrite app_nil_r.
Qed.

Lemma bottom_is_object_cons (f : frame) (stack : list frame) :
  bottom_is_object stack = true -> bottom_is_object (f :: stack) = true.
Proof. destruct stack; [discriminate|]. now destruct f. Qed.

Lemma bottom_is_object_tail (f : frame) (stack : list frame) :
  bottom_is_object (f :: stack) = true ->
  match f with
  | FArr _ => bottom_is_object stack = true
  | FObj _ _ => no_frames stack || bottom_is_object stack = true
  end.
Proof.
  destruct stack as [|g stack]; destruct f; cbn; auto; discriminate.
Qed.

Lemma complete_within_object (v : value) (stack : list frame) :
  bottom_is_object stack = true -> within_object (complete v stack) = true.
Proof.
  destruct stack as [|f stack]; [discriminate|]. intros H.
  apply bottom_is_object_tail in H. destruct f; exact H.
Qed.

Lemma complete_object_within (members : list (jsstring * value))
    (stack : list frame) :
  no_frames stack || bottom_is_object stack = true ->
  within_object (complete (JObj members) stack) = true.
Proof.
  destruct stack as [|f stack]; [reflexivity|]. cbn [no_frames orb].
  apply complete_within_object.
Qed.

Lemma value_start_within_object (t : token) (stack : list frame)
    (st : parse_state) :
  bottom_is_object stack = true -> value_start t stack = Some st ->
  within_object st = true.
Proof.
  intros Hb H. destruct t; cbn [value_start] in H; inversion H; subst;
    try (now apply complete_within_object).
  - cbn [within_object]. now rewrite Hb, orb_true_r.
  - exact Hb.
Qed.

Lemma parse_step_within_object (st st' : parse_state) (t : token) :
  within_object st = true -> parse_step st t = Some st' ->
  within_object st' = true.
Proof.
  intros Hin H. destruct st; cbn [within_object parse_step] in *.
  - eapply value_start_within_object; eassumption.
  - destruct t;
      try (eapply value_start_within_object;
           [apply bottom_is_object_cons|]; eassumption).
    inversion H; subst. now apply complete_within_object.
  - destruct t; inversion H; subst.
    + now apply complete_within_object.
    + cbn [within_object]. now apply bottom_is_object_cons.
  - destruct t; inversion H; subst.
    + now apply complete_object_within.
    + exact Hin.
  - destruct t; inversion H; subst. exact Hin.
  - destruct t; inversion H; subst. cbn [within_object].
    destruct stack as [|f stack]; [reflexivity|].
    cbn [no_frames orb] in Hin. now apply bottom_is_object_cons.
  - destruct t; inversion H; subst.
    + now apply complete_object_within.
    + exact Hin.
  - discriminate.
Qed.

Lemma parse_tokens_within_object (toks : list token) :
  forall st st',
    within_object st = true -> parse_tokens st toks = Some st' ->
    within_object st' = true.
Proof.
  induction toks as [|t toks IH]; intros st st' Hin H.
  - inversion H; subst. exact Hin.
  - cbn [parse_tokens] in H.
    destruct (parse_step st t) as [st1|] eqn:E; [|discriminate].
    exact (IH st1 st' (parse_step_within_object st st1 t Hin E) H).
Qed.

(** X12: what the decoder returns is always an object.  The text given
    to [JSON.parse] begins with a brace, so whatever the body holds, raw
    quotes and brackets included, a decoding that succeeds yields an
    object: the handler never reads [message] off [null], a string or an
    array. *)
Theorem X12_decoded_body_is_an_object (event : APIGatewayProxyEvent) (v : value) :
  decoded event = Ok v -> exists members, v = JObj members.
Proof.
  unfold decode_body, JSON_parse.
  set (inner := concat_operand _ ++ [DQUOTE] ++ js "}").
  change (js "{" ++ [DQUOTE] ++ inner) with (123 :: DQUOTE :: inner).
  unfold parse_text.
  change (lex LDefault (123 :: DQUOTE :: inner))
    with (match lex LDefault (DQUOTE :: inner) with
          | Some more => Some ([TLBrace] ++ more)
          | None => None
          end).
  destruct (lex LDefault (DQUOTE :: inner)) as [more|];
    [|cbn [rbind]; discriminate].
  change (parse_tokens (SValue []) ([TLBrace] ++ more))
    with (parse_tokens (SObjFirst []) more).
  destruct (parse_tokens (SObjFirst []) more) as [st|] eqn:E;
    [|cbn [rbind]; discriminate].
  pose proof (parse_tokens_within_object more (SObjFirst []) st eq_refl E) as Hin.
  destruct st as [| | | | | | |u]; try (cbn [rbind]; discriminate).
  destruct u; try discriminate. cbn [rbind internalize].
  destruct (in_visit_order _); cbn [rbind reviver is_empty]; intros H;
    inversion H. eauto.
Qed.

(** X13: raw quotes act as separators.  In any body, the three raw
    characters quote, comma, quote are read exactly as [&], and quote,
    colon, quote exactly as [=]: the two bodies decode to the same
    result.  A value can thus add a field or replace one. *)
Theorem X13_raw_quotes_act_as_separators (a b : jsstring) :
  decoded {| body := Some (a ++ [DQUOTE; 44; DQUOTE] ++ b) |}
  = decoded {| body := Some (a ++ [AMPERSAND] ++ b) |}
  /\ decoded {| body := Some (a ++ [DQUOTE; 58; DQUOTE] ++ b) |}
     = decoded {| body := Some (a ++ [EQUALS] ++ b) |}.
Proof.
  assert (Hsub : forall x y,
             substituted x = substituted y ->
             decoded {| body := Some (a ++ x ++ b) |}
             = decoded {| body := Some (a ++ y ++ b) |}).
  { intros x y Hxy. unfold decode_body. cbn [body option_map concat_operand].
    change (replace_all EQUALS ([DQUOTE] ++ js ":" ++ [DQUOTE])
              (replace_all AMPERSAND ([DQUOTE] ++ js "," ++ [DQUOTE])
                 (a ++ x ++ b)))
      with (substituted (a ++ x ++ b)).
    change (replace_all EQUALS ([DQUOTE] ++ js ":" ++ [DQUOTE])
              (replace_all AMPERSAND ([DQUOTE] ++ js "," ++ [DQUOTE])
                 (a ++ y ++ b)))
      with (substituted (a ++ y ++ b)).
    now rewrite !substituted_app, Hxy. }
  split; apply Hsub; reflexivity.
Qed.

End Extras.

(** ** The further properties at concrete inputs *)

Lemma X1_witness :
  fst (sample_handler network_up
         {| body := Some (js "message=https%3A%2F%2Fexample.com%2Fa%20b&ticket_id=42") |}
         empty_world)
  = Ok {| statusCode := 201;
          response_body := jsq "{`message`:`Ticket's 42 custom fields set`}" |}
  /\ calls (snd (sample_handler network_up
                   {| body := Some (js "message=https%3A%2F%2Fexample.com%2Fa%20b&ticket_id=42") |}
                   empty_world))
     = [trengo_request sample_token (js "42")
          (jsq "{`custom_field_id`:`1234`,`value`:`https://example.com/a`}")].
Proof.
  apply (X1_form_body_end_to_end sample_upper sample_number_to_string
           sample_error_message sample_token sample_field_id network_up
           [(js "message", js "https%3A%2F%2Fexample.com%2Fa%20b");
            (js "ticket_id", js "42")]
           (js "https%3A%2F%2Fexample.com%2Fa%20b") (js "42")
           (js "https://example.com/a b") (js "42") empty_world).
  - discriminate.
  - repeat constructor.
  - constructor; [right; eexists; vm_compute; reflexivity|].
    constructor; [right; eexists; vm_compute; reflexivity|constructor].
  - reflexivity.
  - vm_compute. reflexivity.
  - reflexivity.
  - vm_compute. reflexivity.
Defined.

Lemma X2_witness :
  parseCustomTicketFields sample_upper None
    (Some (JStr (js "https://example.com/path")))
  = Ok (Some (jsq "{`value`:`https://example.com/path`}"))
  /\ calls (snd (lambdaHandler sample_upper sample_number_to_string
                   sample_error_message None None network_up
                   url_first_event empty_world))
     = [{| req_url := js "https://app.trengo.com/api/v2/tickets/42/custom_fields";
           req_method := js "POST";
           req_headers :=
             [(js "Accept", js "application/json");
              (js "Authorization", js "Bearer undefined");
              (js "Content-Type", js "application/json")];
           req_body := jsq "{`value`:`https://example.com/path`}" |}].
Proof.
  apply (X2_unconfigured_environment sample_upper sample_number_to_string
           sample_error_message network_up url_first_event empty_world
           (JObj [(js "message", JStr (js "https://example.com/path"));
                  (js "ticket_id", JStr (js "42"))])
           (js "https://example.com/path") (js "42")).
  - vm_compute. reflexivity.
  - reflexivity.
  - reflexivity.
  - reflexivity.
Defined.

Lemma X3_witness :
  fst (sample_handler network_up
         {| body := Some (js "message=https://example.com/path") |} empty_world)
  = Ok {| statusCode := 201;
          response_body :=
            jsq "{`message`:`Ticket's undefined custom fields set`}" |}
  /\ calls (snd (sample_handler network_up
                   {| body := Some (js "message=https://example.com/path") |}
                   empty_world))
     = [{| req_url :=
             js "https://app.trengo.com/api/v2/tickets/undefined/custom_fields";
           req_method := js "POST";
           req_headers :=
             [(js "Accept", js "application/json");
              (js "Authorization", js "Bearer secret-token");
              (js "Content-Type", js "application/json")];
           req_body :=
             jsq "{`custom_field_id`:`1234`,`value`:`https://example.com/path`}" |}].
Proof.
  apply (X3_missing_ticket_id sample_upper sample_number_to_string
           sample_error_message sample_token sample_field_id network_up
           {| body := Some (js "message=https://example.com/path") |} empty_world
           (JObj [(js "message", JStr (js "https://example.com/path"))])
           (js "https://example.com/path")).
  - vm_compute. reflexivity.
  - reflexivity.
  - reflexivity.
Defined.

Lemma X4_witness :
  sample_decode {| body := Some (js "message=Hello+there&ticket_id=7") |}
  = Ok (JObj [(js "message", JStr (js "Hello+there"));
              (js "ticket_id", JStr (js "7"))]).
Proof.
  apply (proj1 (X4_values_without_percent_unchanged sample_number_to_string
                  [(js "message", js "Hello+there"); (js "ticket_id", js "7")]
                  ltac:(discriminate)
                  ltac:(repeat constructor)
                  ltac:(repeat constructor))).
Defined.

Lemma X5_witness :
  exists members,
    sample_decode {| body := Some (js "=%&message=hi") |} = Ok (JObj members)
    /\ obj_get members [] = Some (JStr (js "%"))
    /\ obj_get members (js "message") = Some (JStr (js "hi")).
Proof.
  destruct (X5_empty_key_is_not_decoded sample_number_to_string
              [([], js "%"); (js "message", js "hi")])
    as (members & Hd & Hraw & Hnamed).
  - discriminate.
  - repeat constructor.
  - constructor; [left; reflexivity|].
    constructor; [right; eexists; vm_compute; reflexivity|constructor].
  - exists members. split; [exact Hd|]. split.
    + exact (Hraw (js "%") eq_refl).
    + destruct (Hnamed (js "message") (js "hi") eq_refl eq_refl) as (d & Hdec & Hg).
      vm_compute in Hdec. inversion Hdec; subst d. exact Hg.
Defined.

Lemma X6_witness :
  sample_decode {| body := Some (js "message=100%&ticket_id=7") |}
  = Throw (ErrorObject URIError)
  /\ exists w',
       sample_handler network_up
         {| body := Some (js "message=100%&ticket_id=7") |} empty_world
       = (Ok {| statusCode := 500;
                response_body := jsq "{`message`:`URI malformed`}" |}, w')
       /\ calls w' = calls empty_world.
Proof.
  apply (X6_malformed_escape_is_500 sample_upper sample_number_to_string
           sample_error_message sample_token sample_field_id network_up
           [(js "message", js "100%"); (js "ticket_id", js "7")]
           (js "message") (js "100%") (ErrorObject URIError) empty_world).
  - discriminate.
  - repeat constructor.
  - reflexivity.
  - reflexivity.
  - reflexivity.
Defined.

Lemma X7_witness :
  sample_extractor (Some (JStr (js " https://example.com/path"))) = Ok None
  /\ sample_extractor (Some (JStr [])) = Ok None.
Proof.
  apply (X7_leading_white_space_no_update sample_upper sample_field_id
           32 (js "https://example.com/path")).
  reflexivity.
Defined.

Lemma X8_witness :
  exists payload,
    sample_extractor (Some (JStr (jsq "https://x/`a\b c"))) = Ok (Some payload)
    /\ parse_text payload
       = Ok (JObj [(js "custom_field_id", JStr (js "1234"));
                   (js "value", JStr (jsq "https://x/`a\b"))]).
Proof.
  apply (X8_payload_reads_back sample_upper sample_field_id
           (jsq "https://x/`a\b c")).
  - repeat constructor.
  - intros id H. inversion H; subst id. repeat constructor.
  - reflexivity.
Defined.

Lemma X9_witness :
  (exists resp,
      fst (sample_handler network_up absent_body_event empty_world) = Ok resp
      /\ parse_text (response_body resp)
         = Ok (JObj [(js "message", JStr (js "Unexpected token in JSON"))]))
  /\ (exists resp,
         fst (sample_handler network_up no_url_event empty_world) = Ok resp
         /\ parse_text (response_body resp)
            = Ok (JObj [(js "message",
                         JStr (js "Ticket's 7 custom fields set"))])).
Proof.
  split.
  - apply (proj1 (X9_response_body_is_one_member sample_upper
                    sample_number_to_string sample_error_message sample_token
                    sample_field_id network_up absent_body_event empty_world)
             (ErrorObject (SyntaxError (jsq "{`undefined`}")))).
    + reflexivity.
    + repeat constructor.
  - apply (proj2 (X9_response_body_is_one_member sample_upper
                    sample_number_to_string sample_error_message sample_token
                    sample_field_id network_up no_url_event empty_world)
             (Some (JStr (js "7"))) None (js "7")).
    + vm_compute. reflexivity.
    + reflexivity.
    + repeat constructor.
Defined.

Lemma X10_witness :
  (exists w',
      sendToTrengo sample_number_to_string sample_token network_down
        (jsq "{`value`:`www.a.example`}") (Some (JStr (js "42"))) empty_world
      = (Ok tt, w')
      /\ calls w' = [trengo_request sample_token (js "42")
                       (jsq "{`value`:`www.a.example`}")]
      /\ List.length (logs w') = 1%nat)
  /\ (exists w',
         sendToTrengo sample_number_to_string sample_token network_up
           (jsq "{`value`:`www.a.example`}")
           (Some (JObj [(js "toString", JNull)])) empty_world
         = (Ok tt, w')
         /\ calls w' = []
         /\ List.length (logs w') = 1%nat).
Proof.
  split.
  - destruct (X10_notifier_never_throws sample_number_to_string sample_token
                network_down (jsq "{`value`:`www.a.example`}")
                (Some (JStr (js "42"))) empty_world) as (w' & Hrun & Hid & _).
    exists w'. split; [exact Hrun|].
    destruct (Hid (js "42") eq_refl) as [Hc Hl].
    split; [exact Hc|]. now rewrite Hl.
  - destruct (X10_notifier_never_throws sample_number_to_string sample_token
                network_up (jsq "{`value`:`www.a.example`}")
                (Some (JObj [(js "toString", JNull)])) empty_world)
      as (w' & Hrun & _ & Hthrow).
    exists w'. split; [exact Hrun|].
    destruct (Hthrow (ErrorObject (TypeError ToPrimitiveFailed)) eq_refl)
      as [Hc Hl].
    split; [exact Hc|]. now rewrite Hl.
Defined.

Lemma X11_witness :
  List.length (logs (snd (sample_handler network_up absent_body_event empty_world)))
  = 1%nat
  /\ logs (snd (sample_handler network_up no_url_event empty_world)) = []
  /\ exists request,
       calls (snd (sample_handler network_down url_first_event empty_world))
       = [request]
       /\ req_body request
          = jsq "{`custom_field_id`:`1234`,`value`:`https://example.com/path`}"
       /\ List.length
            (logs (snd (sample_handler network_down url_first_event empty_world)))
          = 1%nat.
Proof.
  split; [|split].
  - rewrite (proj1 (X11_handler_log_lines sample_upper sample_number_to_string
                      sample_error_message sample_token sample_field_id
                      network_up absent_body_event empty_world)
               (ErrorObject (SyntaxError (jsq "{`undefined`}"))) eq_refl).
    reflexivity.
  - apply (proj1 (proj2 (X11_handler_log_lines sample_upper
                           sample_number_to_string sample_error_message
                           sample_token sample_field_id network_up
                           no_url_event empty_world))
             (Some (JStr (js "7")))).
    vm_compute. reflexivity.
  - destruct (proj2 (proj2 (X11_handler_log_lines sample_upper
                              sample_number_to_string sample_error_message
                              sample_token sample_field_id network_down
                              url_first_event empty_world))
                (Some (JStr (js "42")))
                (jsq "{`custom_field_id`:`1234`,`value`:`https://example.com/path`}"))
      as (request & Hc & Hb & Hl).
    + vm_compute. reflexivity.
    + exists request. split; [exact Hc|]. split; [exact Hb|].
      rewrite Hl. reflexivity.
Defined.

Lemma X12_witness :
  exists members,
    JObj [(js "message", JStr (js "hello")); (js "ticket_id", JStr (js "42"))]
    = JObj members.
Proof.
  apply (X12_decoded_body_is_an_object sample_number_to_string plain_event).
  vm_compute. reflexivity.
Defined.
